(** * The external check executor of kuberhealthy (pkg/checks/external/main.go)

    A shallow embedding of the [Checker] of package [external]: the data it
    holds, the pure helpers (defaults, status query, validation and
    decoration of the user's pod spec) and the effectful lifecycle
    ([execute], [Run], [Shutdown]) written in a small state monad over the
    checker and the cluster API it talks to. *)

From Stdlib Require Import ZArith.
From stdpp Require Import base strings list gmap option.

(** ** Go basics *)

(** [time.Duration] is an int64 count of nanoseconds. All durations of this
    package are constants far below 2^63, so they are plain integers. *)
Definition Duration := Z.

Module time.
Definition Nanosecond : Duration := 1%Z.
Definition Microsecond : Duration := (1000 * Nanosecond)%Z.
Definition Millisecond : Duration := (1000 * Microsecond)%Z.
Definition Second : Duration := (1000 * Millisecond)%Z.
Definition Minute : Duration := (60 * Second)%Z.

(** [time.Time]: the instant as an offset from Go's zero time. *)
Definition Time := Z.
Definition IsZero (t : Time) : bool := (t =? 0)%Z.
End time.

(** A Go [error] value that is not nil. [errors.New] builds [errorString];
    the cluster client answers with a status error, of which the
    not-found reason is kept apart from every other failure. A Go [error]
    that may be nil is an [option error]. *)
Inductive error :=
| errorString (s : string)
| StatusNotFound (resource name : string)
| StatusError (msg : string).

Module errors.
Definition New (s : string) : option error := Some (errorString s).
End errors.

Definition dquote : string := String (Ascii.ascii_of_nat 34) EmptyString.

(** The [Error()] method. *)
Definition Error (e : error) : string :=
  match e with
  | errorString s => s
  | StatusNotFound r n => r +:+ " " +:+ dquote +:+ n +:+ dquote +:+ " not found"
  | StatusError m => m
  end.

(** ** The Kubernetes API types the package uses (k8s.io/api/core/v1) *)

Module metav1.
(** A nil map reads as the empty map; it is [None] here. *)
Record ObjectMeta := mkObjectMeta {
  Name : string;
  Namespace : string;
  Labels : option (gmap string string);
}.

(** [*metav1.Time]: [IsZero] is true of the nil pointer. *)
Definition IsZero (t : option time.Time) : bool :=
  match t with
  | None => true
  | Some t => time.IsZero t
  end.
End metav1.

Module apiv1.
(** [PodPhase] and [RestartPolicy] are string types with named
    constants. *)
Definition PodPhase := string.
Definition PodPending : PodPhase := "Pending".
Definition PodRunning : PodPhase := "Running".
Definition PodSucceeded : PodPhase := "Succeeded".
Definition PodFailed : PodPhase := "Failed".
Definition PodUnknown : PodPhase := "Unknown".

Definition RestartPolicy := string.
Definition RestartPolicyAlways : RestartPolicy := "Always".
Definition RestartPolicyOnFailure : RestartPolicy := "OnFailure".
Definition RestartPolicyNever : RestartPolicy := "Never".

Record EnvVar := mkEnvVar {
  EnvVar_Name : string;
  EnvVar_Value : string;
}.

Record ResourceRequirements := mkResourceRequirements {
  Limits : gmap string string;
  Requests : gmap string string;
}.

Record Container := mkContainer {
  Container_Name : string;
  Image : string;
  Command : list string;
  Args : list string;
  Env : list EnvVar;
  Resources : ResourceRequirements;
}.

Record Toleration := mkToleration {
  Toleration_Key : string;
  Toleration_Operator : string;
  Toleration_Value : string;
  Toleration_Effect : string;
}.

Record PodSpec := mkPodSpec {
  Volumes : list string;
  InitContainers : list Container;
  Containers : list Container;
  RestartPolicy_ : RestartPolicy;
  NodeSelector : gmap string string;
  ServiceAccountName : string;
  Hostname : string;
  Tolerations : list Toleration;
}.

Record PodStatus := mkPodStatus {
  Phase : PodPhase;
  StartTime : option time.Time;
}.

Record Pod := mkPod {
  ObjectMeta : metav1.ObjectMeta;
  Spec : PodSpec;
  Status : PodStatus;
}.

(** The zero values [apiv1.PodSpec{}] and [apiv1.Pod{}]. *)
Definition zeroPodSpec : PodSpec := mkPodSpec [] [] [] "" ∅ "" "" [].
Definition zeroPod : Pod :=
  mkPod (metav1.mkObjectMeta "" "" None) zeroPodSpec (mkPodStatus "" None).

(** Field assignments. *)
Definition setEnv (c : Container) (e : list EnvVar) : Container :=
  mkContainer (Container_Name c) (Image c) (Command c) (Args c) e (Resources c).

Definition setHostname (s : PodSpec) (h : string) : PodSpec :=
  mkPodSpec (Volumes s) (InitContainers s) (Containers s) (RestartPolicy_ s)
            (NodeSelector s) (ServiceAccountName s) h (Tolerations s).

Definition setContainers (s : PodSpec) (cs : list Container) : PodSpec :=
  mkPodSpec (Volumes s) (InitContainers s) cs (RestartPolicy_ s)
            (NodeSelector s) (ServiceAccountName s) (Hostname s) (Tolerations s).

Definition setRestartPolicy (s : PodSpec) (r : RestartPolicy) : PodSpec :=
  mkPodSpec (Volumes s) (InitContainers s) (Containers s) r
            (NodeSelector s) (ServiceAccountName s) (Hostname s) (Tolerations s).

Definition setLabels (p : Pod) (l : option (gmap string string)) : Pod :=
  mkPod (metav1.mkObjectMeta (metav1.Name (ObjectMeta p))
                             (metav1.Namespace (ObjectMeta p)) l)
        (Spec p) (Status p).

(** [p.Labels[k]]: a missing key, or a nil map, reads as the empty
    string. *)
Definition label (p : Pod) (k : string) : string :=
  default "" (default ∅ (metav1.Labels (ObjectMeta p)) !! k).
End apiv1.

(** ** Package constants and variables *)

Definition DefaultKuberhealthyReportingURL : string :=
  "http://kuberhealthy.kuberhealthy.svc.local".
Definition kuberhealthyRunIDLabel : string := "kuberhealthy-run-id".
Definition kuberhealthyCheckNameLabel : string := "kuberhealthy-check-name".
Definition defaultMaxRunTime : Duration := (time.Minute * 15)%Z.
Definition defaultMaxStartTime : Duration := (time.Minute * 5)%Z.
Definition DefaultName : string := "external-check".
(** [NamePrefix] is initialised from [DefaultName] and never assigned
    again in the package. *)
Definition NamePrefix : string := DefaultName.
Definition defaultRunInterval : Duration := (time.Minute * 10)%Z.

(** ** The checker *)

(** [*kubernetes.Clientset]: an opaque handle; what the cluster answers
    is the environment's business (see [Env] below). *)
Definition Clientset := nat.

(** [PodDeployedMu] only serialises access to [PodDeployed]; in this
    sequential model it carries no state. *)
Record Checker := mkChecker {
  CheckName : string;
  Namespace : string;
  ErrorMessages : list string;
  RunInterval : Duration;
  maxRunTime : Duration;
  startupTimeout : Duration;
  kubeClient : option Clientset;
  PodSpec : option apiv1.PodSpec;
  PodDeployed : bool;
  PodName : string;
  RunID : string;
  KuberhealthyReportingURL : string;
  currentCheckUUID : string;
  Debug : bool;
}.

Definition setErrorMessages (ext : Checker) (v : list string) : Checker :=
  mkChecker (CheckName ext) (Namespace ext) v (RunInterval ext)
            (maxRunTime ext) (startupTimeout ext) (kubeClient ext) (PodSpec ext)
            (PodDeployed ext) (PodName ext) (RunID ext)
            (KuberhealthyReportingURL ext) (currentCheckUUID ext) (Debug ext).

Definition setKubeClient (ext : Checker) (v : option Clientset) : Checker :=
  mkChecker (CheckName ext) (Namespace ext) (ErrorMessages ext) (RunInterval ext)
            (maxRunTime ext) (startupTimeout ext) v (PodSpec ext)
            (PodDeployed ext) (PodName ext) (RunID ext)
            (KuberhealthyReportingURL ext) (currentCheckUUID ext) (Debug ext).

Definition setPodSpec (ext : Checker) (v : option apiv1.PodSpec) : Checker :=
  mkChecker (CheckName ext) (Namespace ext) (ErrorMessages ext) (RunInterval ext)
            (maxRunTime ext) (startupTimeout ext) (kubeClient ext) v
            (PodDeployed ext) (PodName ext) (RunID ext)
            (KuberhealthyReportingURL ext) (currentCheckUUID ext) (Debug ext).

Definition setPodDeployedField (ext : Checker) (v : bool) : Checker :=
  mkChecker (CheckName ext) (Namespace ext) (ErrorMessages ext) (RunInterval ext)
            (maxRunTime ext) (startupTimeout ext) (kubeClient ext) (PodSpec ext)
            v (PodName ext) (RunID ext)
            (KuberhealthyReportingURL ext) (currentCheckUUID ext) (Debug ext).

Definition setCurrentCheckUUID (ext : Checker) (v : string) : Checker :=
  mkChecker (CheckName ext) (Namespace ext) (ErrorMessages ext) (RunInterval ext)
            (maxRunTime ext) (startupTimeout ext) (kubeClient ext) (PodSpec ext)
            (PodDeployed ext) (PodName ext) (RunID ext)
            (KuberhealthyReportingURL ext) v (Debug ext).

(** [New]: the package variable [namespace] holds the value of the
    environment variable POD_NAMESPACE read at start-up, so it is an
    argument here. The fields the literal leaves out take their zero
    values. *)
Definition New (namespace : string) : Checker * option error :=
  ({| CheckName := DefaultName;
      Namespace := namespace;
      ErrorMessages := [];
      RunInterval := defaultRunInterval;
      maxRunTime := defaultMaxRunTime;
      startupTimeout := defaultMaxStartTime;
      kubeClient := None;
      PodSpec := None;
      PodDeployed := false;
      PodName := DefaultName;
      RunID := "";
      KuberhealthyReportingURL := DefaultKuberhealthyReportingURL;
      currentCheckUUID := "";
      Debug := false |}, None).

Definition CurrentStatus (ext : Checker) : bool * list string :=
  if (0 <? length (ErrorMessages ext))%nat
  then (false, ErrorMessages ext)
  else (true, ErrorMessages ext).

Definition Name (ext : Checker) : string :=
  NamePrefix +:+ "-" +:+ CheckName ext.

Definition CheckNamespace (ext : Checker) : string := Namespace ext.
Definition Interval (ext : Checker) : Duration := RunInterval ext.
Definition Timeout (ext : Checker) : Duration := maxRunTime ext.

Definition clearErrors (ext : Checker) : Checker := setErrorMessages ext [].
Definition setError (ext : Checker) (s : string) : Checker :=
  setErrorMessages ext [s].
Definition addError (ext : Checker) (s : string) : Checker :=
  setErrorMessages ext (ErrorMessages ext ++ [s]).

Definition sanityCheck (ext : Checker) : option error :=
  if String.eqb (Namespace ext) "" then
    errors.New "check namespace can not be empty"
  else if String.eqb (PodName ext) "" then
    errors.New "pod name can not be empty"
  else match kubeClient ext with
       | None => errors.New "kubeClient can not be nil"
       | Some _ => None
       end.

(** ** Validation of the user's pod spec *)

(** The loop over the containers: the first one without an image ends
    the validation. *)
Fixpoint validateImages (cs : list apiv1.Container) : option error :=
  match cs with
  | [] => None
  | c :: cs' =>
      if (String.length (apiv1.Image c) =? 0)%nat
      then errors.New ("no image found in check's PodSpec for container "
                        +:+ apiv1.Container_Name c +:+ ".")
      else validateImages cs'
  end.

Definition validatePodSpec (ext : Checker) : option error :=
  match PodSpec ext with
  | None =>
      errors.New "unable to determine pod spec for checker  Pod spec was nil"
  | Some spec =>
      if (length (apiv1.Containers spec) =? 0)%nat
         && (length (apiv1.InitContainers spec) =? 0)%nat
      then errors.New "no containers found in checks PodSpec"
      else if (length (apiv1.Containers spec) =? 0)%nat
      then errors.New "no containers found in checks PodSpec"
      else validateImages (apiv1.Containers spec)
  end.

(** ** Decoration of the user's pod spec *)

Definition overwriteEnvVars (ext : Checker) : list apiv1.EnvVar :=
  [ apiv1.mkEnvVar "KUBERHEALTHY_URL" (KuberhealthyReportingURL ext);
    apiv1.mkEnvVar "KUBERHEALTHY_RUN_ID" (currentCheckUUID ext) ].

(** [for i := range Containers { Containers[i].Env = append(Containers[i].Env, vars...) }]
    with the environments as values: the indices are fixed when the
    loop starts and each step writes one slot of the slice. Go's
    [append] writes into the array behind the slice when it has room,
    so this is the loop of the code when the environment slices share
    no storage; the loop on slices and arrays is [appendEnvsAt], and
    [configureUserPodSpecMem] the decoration built on it. *)
Definition appendEnvAt (vars : list apiv1.EnvVar)
    (cs : list apiv1.Container) (i : nat) : list apiv1.Container :=
  match cs !! i with
  | Some c => <[i := apiv1.setEnv c (apiv1.Env c ++ vars)]> cs
  | None => cs
  end.

Definition applyEnvVars (vars : list apiv1.EnvVar)
    (cs : list apiv1.Container) : list apiv1.Container :=
  foldl (appendEnvAt vars) cs (seq 0 (length cs)).

(** A Go function that can dereference a nil pointer: [None] is the
    run-time panic, [Some] the state left behind and the value returned. *)
Definition configureUserPodSpec (ext : Checker) : option (Checker * option error) :=
  match PodSpec ext with
  | None => None
  | Some spec =>
      let spec := apiv1.setHostname spec (CheckName ext) in
      let spec :=
        apiv1.setContainers spec
          (applyEnvVars (overwriteEnvVars ext) (apiv1.Containers spec)) in
      let spec := apiv1.setRestartPolicy spec apiv1.RestartPolicyNever in
      Some (setPodSpec ext (Some spec), None)
  end.

(** [addKuberhealthyLabels] on the pod behind a non-nil pointer. *)
Definition stackLabels (ext : Checker) (pod : apiv1.Pod) : apiv1.Pod :=
  let existingLabels := default ∅ (metav1.Labels (apiv1.ObjectMeta pod)) in
  let existingLabels := <[kuberhealthyRunIDLabel := currentCheckUUID ext]> existingLabels in
  let existingLabels := <[kuberhealthyCheckNameLabel := CheckName ext]> existingLabels in
  apiv1.setLabels pod (Some existingLabels).

(** [addKuberhealthyLabels]: the result is the pod the caller's pointer
    refers to afterwards. Given nil, the function labels a pod of its own
    that nobody else sees, and the caller still holds nil. *)
Definition addKuberhealthyLabels (ext : Checker) (pod : option apiv1.Pod)
    : option apiv1.Pod :=
  match pod with
  | None => None
  | Some p => Some (stackLabels ext p)
  end.

(** The pod [createPod] hands to the API. *)
Definition preparePod (ext : Checker) : option apiv1.Pod :=
  match PodSpec ext with
  | None => None
  | Some spec =>
      let p := apiv1.zeroPod in
      let p := apiv1.mkPod (metav1.mkObjectMeta (PodName ext) (Namespace ext)
                              (metav1.Labels (apiv1.ObjectMeta p)))
                           spec (apiv1.Status p) in
      addKuberhealthyLabels ext (Some p)
  end.

(** ** The cluster API and the Go run-time, as the checker meets them *)

Module watch.
(** [e.Object] is a [runtime.Object]; the checker only asks whether it
    is a pod. *)
Inductive Object :=
| PodObject (p : apiv1.Pod)
| OtherObject.

Record Event := mkEvent {
  Type_ : string;
  Object_ : Object;
}.
End watch.

(** What the checker does to the outside world, in order. Logging is
    left out. *)
Inductive Action :=
| ASleep (d : Duration)
| ADeleteCollection (ns selector : string)
| ACreate (ns : string) (p : apiv1.Pod)
| AWatch (ns selector : string)
| AGet (ns name : string)
| ACancel.

(** What the outside world answers. Every question the checker asks
    advances a tick, and the answer to a question may depend on the tick
    at which it is asked; theorems quantify over the whole environment.
    - [env_watch]: the watch fails to open, or delivers these events and
      then closes its channel (a watch is ended by the server after a
      while; one that never ends and never shows the awaited phase
      blocks the caller for good: [rangeEvents] has the loop of the
      watchers on such a watch, and the iterations here are those whose
      watches end);
    - [env_timerFired] and [env_pickTimer]: for a [select] between a
      timer and a channel that already holds a value, whether the timer
      has fired by then, and whether the run-time picks the timer's case
      when both can proceed (Go picks one of the ready cases at random);
    - [env_shutdownDone k]: whether the context of [Shutdown], which a
      goroutine cancels once [Timeout()] has passed, is done when the
      poll loop looks at it for the k-th time. *)
Record Env := mkEnv {
  env_uuid : nat → string;
  env_deleteCollection : nat → option error;
  env_create : nat → apiv1.Pod → apiv1.Pod + error;
  env_watch : nat → list watch.Event + error;
  env_get : nat → apiv1.Pod + error;
  env_timerFired : nat → bool;
  env_pickTimer : nat → bool;
  env_shutdownDone : nat → bool;
}.

(** A [context.Context] as its reader sees it: is it done at the k-th
    look? *)
Definition Context := nat → bool.

Record State := mkState {
  st_ext : Checker;
  st_trace : list Action;
  st_tick : nat;
}.

(** A run returns a value and a state, panics (nil dereference), or is
    still inside a loop when the fuel given to the loop is used up. *)
Inductive Outcome (A : Type) :=
| Returned (a : A) (s : State)
| Panicked (s : State)
| OutOfFuel (s : State).
Arguments Returned {A} a s.
Arguments Panicked {A} s.
Arguments OutOfFuel {A} s.

Definition M (A : Type) := State → Outcome A.

Definition ret {A} (a : A) : M A := fun s => Returned a s.

Definition bind {A B} (m : M A) (k : A → M B) : M B :=
  fun s =>
    match m s with
    | Returned a s' => k a s'
    | Panicked s' => Panicked s'
    | OutOfFuel s' => OutOfFuel s'
    end.

Notation "x <- c ;; k" := (bind c (fun x => k))
  (at level 62, c at next level, right associativity, only parsing).

Definition panic {A} : M A := fun s => Panicked s.
Definition outOfFuel {A} : M A := fun s => OutOfFuel s.

Definition this : M Checker := fun s => Returned (st_ext s) s.

Definition update (f : Checker → Checker) : M unit :=
  fun s => Returned tt (mkState (f (st_ext s)) (st_trace s) (st_tick s)).

Definition act (a : Action) : M unit :=
  fun s => Returned tt (mkState (st_ext s) (st_trace s ++ [a]) (st_tick s)).

Definition ask {A} (answer : nat → A) : M A :=
  fun s => Returned (answer (st_tick s))
                    (mkState (st_ext s) (st_trace s) (S (st_tick s))).

Section Lifecycle.
Variable E : Env.

(** [time.Sleep]. *)
Definition Sleep (d : Duration) : M unit := act (ASleep d).

(** [ext.kubeClient.CoreV1().Pods(ns)]: a nil clientset panics. *)
Definition podClient : M unit :=
  ext <- this ;;
  match kubeClient ext with
  | None => panic
  | Some _ => ret tt
  end.

Definition createCheckUUID : M (option error) :=
  uniqueID <- ask (env_uuid E) ;;
  _ <- update (fun ext => setCurrentCheckUUID ext uniqueID) ;;
  ret None.

Definition deletePod : M (option error) :=
  _ <- podClient ;;
  ext <- this ;;
  let selector := kuberhealthyCheckNameLabel +:+ "=" +:+ CheckName ext in
  _ <- act (ADeleteCollection (Namespace ext) selector) ;;
  ask (env_deleteCollection E).

Definition createPod : M (apiv1.Pod + error) :=
  ext <- this ;;
  match preparePod ext with
  | None => panic
  | Some p =>
      _ <- podClient ;;
      _ <- act (ACreate (Namespace ext) p) ;;
      ask (fun t => env_create E t p)
  end.

Definition setPodDeployed (status : bool) : M unit :=
  update (fun ext => setPodDeployedField ext status).

Definition podDeployed : M bool :=
  ext <- this ;; ret (PodDeployed ext).

(** *** The phase watchers *)

(** The loop [for e := range watcher.ResultChan()] of both watchers,
    which differ in the phases they wait for and in the message sent
    when the context is done. The result is the value the loop leaves
    on the output channel: [None] is the nil error. [looks] counts the
    times the context has been looked at. *)
Fixpoint drainEvents (target : apiv1.PodPhase → bool) (aborted : string)
    (uuid : string) (ctx : Context) (looks : nat)
    (events : list watch.Event) : option error :=
  match events with
  | [] => errors.New "external checker watch aborted pre-maturely"
  | e :: rest =>
      match watch.Object_ e with
      | watch.OtherObject => drainEvents target aborted uuid ctx looks rest
      | watch.PodObject p =>
          if negb (String.eqb (apiv1.label p kuberhealthyRunIDLabel) uuid)
          then drainEvents target aborted uuid ctx looks rest
          else if target (apiv1.Phase (apiv1.Status p))
          then None
          else if ctx looks
          then errors.New aborted
          else drainEvents target aborted uuid ctx (S looks) rest
      end
  end.

Definition runningOrFailed (phase : apiv1.PodPhase) : bool :=
  String.eqb phase apiv1.PodRunning || String.eqb phase apiv1.PodFailed.

Definition succeededOrFailed (phase : apiv1.PodPhase) : bool :=
  String.eqb phase apiv1.PodSucceeded || String.eqb phase apiv1.PodFailed.

(** Both watchers open the watch and drain it before they return, so
    the channel they return already holds its one value; that value is
    the result here. *)
Definition waitForPodRunning (ctx : Context) : M (option error) :=
  _ <- podClient ;;
  ext <- this ;;
  _ <- act (AWatch (Namespace ext)
                   ("kuberhealthy-run-id=" +:+ currentCheckUUID ext)) ;;
  w <- ask (env_watch E) ;;
  match w with
  | inr err => ret (Some err)
  | inl events =>
      ret (drainEvents runningOrFailed
             "external checker pod startup watch aborted"
             (currentCheckUUID ext) ctx 0 events)
  end.

Definition waitForPodExit (ctx : Context) : M (option error) :=
  _ <- podClient ;;
  ext <- this ;;
  _ <- act (AWatch (Namespace ext)
                   (kuberhealthyRunIDLabel +:+ "=" +:+ currentCheckUUID ext)) ;;
  w <- ask (env_watch E) ;;
  match w with
  | inr err => ret (Some err)
  | inl events =>
      ret (drainEvents succeededOrFailed
             "external checker pod completion watch aborted"
             (currentCheckUUID ext) ctx 0 events)
  end.

(** *** One iteration *)

Definition configureUserPodSpecM : M (option error) :=
  fun s =>
    match configureUserPodSpec (st_ext s) with
    | None => Panicked s
    | Some (ext', err) => Returned err (mkState ext' (st_trace s) (st_tick s))
    end.

(** [select { case <-time.After(d): ... case <-ch: ... }] where [ch]
    already holds a value when the select is entered: the timer's case
    runs only if the timer has fired by then and the run-time picks it
    among the two ready cases. *)
Definition selectTimer : M bool :=
  ask (fun t => env_timerFired E t && env_pickTimer E t).

(** The context made by [context.WithCancel] in [execute]: its cancel
    function is called only after the watcher that reads it has
    returned, so no watcher ever sees it done. *)
Definition watchContext : Context := fun _ => false.

(** [if err != nil { return wrap(err) }] *)
Definition orReturn (m : M (option error)) (wrap : error → option error)
    (k : M (option error)) : M (option error) :=
  err <- m ;;
  match err with
  | Some e => ret (wrap e)
  | None => k
  end.

Definition execute (client : option Clientset) : M (option error) :=
  _ <- update (fun ext => setKubeClient ext client) ;;
  orReturn createCheckUUID Some (
  orReturn (ext <- this ;; ret (validatePodSpec ext)) Some (
  orReturn configureUserPodSpecM
    (fun err => errors.New
       ("failed to configure pod spec for Kubernetes from user specified pod spec: "
        +:+ Error err)) (
  orReturn (ext <- this ;; ret (sanityCheck ext)) Some (
  orReturn deletePod
    (fun err => errors.New
       ("failed to clean up pods before starting external checker: "
        +:+ Error err)) (
  created <- createPod ;;
  match created with
  | inr err =>
      ret (errors.New ("failed to create pod for checker: " +:+ Error err))
  | inl createdPod =>
      let ctx := watchContext in
      (* the operands of the select are evaluated on entering it: the
         timer is started, then the watcher runs to its end; what it
         left on the channel is dropped by the receive *)
      _ <- waitForPodRunning ctx ;;
      timedOut <- selectTimer ;;
      if timedOut then
        _ <- act ACancel ;;
        err <- deletePod ;;
        let errorMessage := "failed to see pod running within timeout" in
        let errorMessage :=
          match err with
          | Some e => errorMessage
                      +:+ " and an error occurred when deleting the pod:"
                      +:+ Error e
          | None => errorMessage
          end in
        ret (errors.New errorMessage)
      else
        _ <- setPodDeployed true ;;
        _ <- waitForPodExit ctx ;;
        timedOut <- selectTimer ;;
        if timedOut then
          _ <- act ACancel ;;
          err <- deletePod ;;
          let errorMessage := "pod ran too long and was shut down" in
          let errorMessage :=
            match err with
            | Some e => errorMessage
                        +:+ " but an error occurred when deleting the pod:"
                        +:+ Error e
            | None => errorMessage
            end in
          ret (errors.New errorMessage)
        else ret None
  end))))).

(** *** The periodic driver *)

(** The body of the loop of [Run], up to the test that leaves it. *)
Definition iteration (client : option Clientset) : M unit :=
  ext <- this ;;
  _ <- (if negb (Debug ext) then Sleep (Interval ext) else ret tt) ;;
  err <- execute client ;;
  match err with
  | Some e => update (fun ext => setError ext (Error e))
  | None => ret tt
  end.

(** [Run]: [fuel] bounds the number of iterations; outside debug mode
    the loop never ends, and the outcome is [OutOfFuel] with the state
    reached after [fuel] iterations. *)
Fixpoint Run (fuel : nat) (client : option Clientset) : M (option error) :=
  match fuel with
  | O => outOfFuel
  | S fuel' =>
      _ <- iteration client ;;
      ext <- this ;;
      if Debug ext then ret None else Run fuel' client
  end.

(** *** Shutdown *)

Definition podExists : M (bool * option error) :=
  _ <- podClient ;;
  ext <- this ;;
  _ <- act (AGet (Namespace ext) (PodName ext)) ;;
  r <- ask (env_get E) ;;
  match r with
  | inr err => ret (false, Some err)
  | inl p =>
      if negb (metav1.IsZero (apiv1.StartTime (apiv1.Status p)))
         && negb (String.eqb (apiv1.Phase (apiv1.Status p)) apiv1.PodFailed)
      then ret (true, None)
      else ret (false, None)
  end.

(** [fuel] bounds the number of polls; [looks] counts the times the
    context has been looked at. *)
Fixpoint waitForShutdown (ctx : Context) (fuel looks : nat) : M (option error) :=
  match fuel with
  | O => outOfFuel
  | S fuel' =>
      _ <- Sleep (time.Second / 2)%Z ;;
      r <- podExists ;;
      match r with
      | (_, Some err) => ret (Some err)
      | (false, None) => ret None
      | (true, None) =>
          if ctx looks
          then ret (errors.New "timed out when waiting for pod to shutdown")
          else waitForShutdown ctx fuel' (S looks)
      end
  end.

Definition Shutdown (fuel : nat) : M (option error) :=
  (* the context a goroutine cancels after Timeout() *)
  let ctx : Context := env_shutdownDone E in
  deployed <- podDeployed ;;
  if deployed then
    orReturn deletePod Some (
    orReturn (waitForShutdown ctx fuel 0) Some (
    ret None))
  else ret None.
End Lifecycle.

(** ** Vocabulary of the statements *)

(** What a run left behind, whichever way it ended, and the value it
    returned if it did return. *)
Definition stateOf {A} (o : Outcome A) : State :=
  match o with
  | Returned _ s => s
  | Panicked s => s
  | OutOfFuel s => s
  end.

Definition valueOf {A} (o : Outcome A) : option A :=
  match o with
  | Returned a _ => Some a
  | _ => None
  end.

(** A container with the two variables of a run added behind the ones it
    has. *)
Definition withRunEnv (url runID : string) (c : apiv1.Container) : apiv1.Container :=
  apiv1.setEnv c
    (apiv1.Env c ++ [ apiv1.mkEnvVar "KUBERHEALTHY_URL" url;
                      apiv1.mkEnvVar "KUBERHEALTHY_RUN_ID" runID ]).

(** A pod spec with the fields the decoration writes blanked out:
    hostname, restart policy and the environment of each container. Two
    specs that this map sends to the same spec agree on everything
    else. *)
Definition withoutDecoratedFields (spec : apiv1.PodSpec) : apiv1.PodSpec :=
  apiv1.mkPodSpec (apiv1.Volumes spec) (apiv1.InitContainers spec)
    ((fun c => apiv1.setEnv c []) <$> apiv1.Containers spec)
    "" (apiv1.NodeSelector spec) (apiv1.ServiceAccountName spec) ""
    (apiv1.Tolerations spec).


(** The test of [podExists] on a pod the API returned. *)
Definition startedAndNotFailed (p : apiv1.Pod) : Prop :=
  metav1.IsZero (apiv1.StartTime (apiv1.Status p)) = false
  ∧ apiv1.Phase (apiv1.Status p) ≠ apiv1.PodFailed.

(** Labels of a pod as a map. *)
Definition labelsOf (p : apiv1.Pod) : gmap string string :=
  default ∅ (metav1.Labels (apiv1.ObjectMeta p)).

(** The selector [deletePod] sends and the actions of [n] rounds of the
    poll loop of [waitForShutdown]. *)
Definition checkSelector (ext : Checker) : string :=
  kuberhealthyCheckNameLabel +:+ "=" +:+ CheckName ext.

Definition pollActions (ext : Checker) (n : nat) : list Action :=
  concat (replicate n [ASleep 500000000%Z; AGet (Namespace ext) (PodName ext)]).

Definition isGet (a : Action) : bool :=
  match a with AGet _ _ => true | _ => false end.

Definition isDeleteCollection (a : Action) : bool :=
  match a with ADeleteCollection _ _ => true | _ => false end.

Definition isCancel (a : Action) : bool :=
  match a with ACancel => true | _ => false end.

(** An environment with other answers to the watches. *)
Definition withWatch (E : Env) (w : nat → list watch.Event + error) : Env :=
  mkEnv (env_uuid E) (env_deleteCollection E) (env_create E) w (env_get E)
        (env_timerFired E) (env_pickTimer E) (env_shutdownDone E).

(** The checker as [execute] has it once the client is stored and the
    run id minted. *)
Definition minted (E : Env) (client : option Clientset) (s : State) : Checker :=
  setCurrentCheckUUID (setKubeClient (st_ext s) client) (env_uuid E (st_tick s)).

(** The pod spec the decoration leaves, spelled out. *)
Definition decoratedSpec (ext : Checker) (spec : apiv1.PodSpec) : apiv1.PodSpec :=
  apiv1.mkPodSpec (apiv1.Volumes spec) (apiv1.InitContainers spec)
    (withRunEnv (KuberhealthyReportingURL ext) (currentCheckUUID ext)
       <$> apiv1.Containers spec)
    apiv1.RestartPolicyNever (apiv1.NodeSelector spec)
    (apiv1.ServiceAccountName spec) (CheckName ext) (apiv1.Tolerations spec).

(** Does the select asked at tick [t] run the timer's case? *)
Definition timerCase (E : Env) (t : nat) : bool :=
  env_timerFired E t && env_pickTimer E t.

(** The message of a time-out, with the error of the delete that
    followed it, if any. *)
Definition timeoutMessage (base glue : string) (deleted : option error) : string :=
  match deleted with
  | Some e => base +:+ glue +:+ Error e
  | None => base
  end.

(** ** Sample inputs *)

Module Sample.
(** One container, image echo:latest, with one variable of the
    user's own, a command and a resource request. *)
Definition container : apiv1.Container :=
  apiv1.mkContainer "check" "echo:latest" ["/bin/echo"; "ok"] []
    [apiv1.mkEnvVar "MODE" "fast"]
    (apiv1.mkResourceRequirements ∅ {[ "cpu" := "10m" ]}).

Definition spec : apiv1.PodSpec :=
  apiv1.mkPodSpec ["scratch"] [] [container] "Always"
    {[ "disk" := "ssd" ]} "checker" "" [].

(** A checker as the supervisor sets it up: defaults, namespace kh,
    the pod spec attached. *)
Definition checker : Checker := setPodSpec (fst (New "kh")) (Some spec).

(** The checker between iterations with its pod deployed, and before
    any pod was deployed. *)
Definition deployed : State :=
  mkState (setPodDeployedField (setKubeClient checker (Some 0)) true) [] 0.

Definition idle : State := mkState (setKubeClient checker (Some 0)) [] 0.

(** A pod of run [uuid] in phase [phase], started at instant 5. *)
Definition pod (uuid : string) (phase : apiv1.PodPhase) : apiv1.Pod :=
  apiv1.mkPod
    (metav1.mkObjectMeta "external-check" "kh"
       (Some {[ kuberhealthyRunIDLabel := uuid ]}))
    spec (apiv1.mkPodStatus phase (Some 5%Z)).

Definition event (p : apiv1.Pod) : watch.Event :=
  watch.mkEvent "MODIFIED" (watch.PodObject p).

(** A cluster that accepts every delete and create, shows no event on
    any watch, has no pod to get, and lets no timer fire. *)
Definition quietEnv : Env :=
  mkEnv (fun _ => "run-a") (fun _ => None) (fun _ p => inl p)
        (fun _ => inl []) (fun _ => inr (StatusNotFound "pods" "external-check"))
        (fun _ => false) (fun _ => false) (fun _ => false).

(** The pod is gone once the delete is through: every get answers
    not-found. *)
Definition goneEnv : Env := quietEnv.

(** The pod stays in the API for good, in phase Failed. *)
Definition failedPodEnv : Env :=
  mkEnv (fun _ => "run-a") (fun _ => None) (fun _ p => inl p)
        (fun _ => inl []) (fun _ => inl (pod "run-a" apiv1.PodFailed))
        (fun _ => false) (fun _ => false) (fun _ => false).

(** The pod is Running at the first two polls (ticks 1 and 2) and Failed
    from the third on; the shutdown context is never done. *)
Definition lingerEnv : Env :=
  mkEnv (fun _ => "run-a") (fun _ => None) (fun _ p => inl p)
        (fun _ => inl [])
        (fun t => inl (pod "run-a"
                         (if (t <? 3)%nat then apiv1.PodRunning
                          else apiv1.PodFailed)))
        (fun _ => false) (fun _ => false) (fun _ => false).

(** The pod keeps Running; the shutdown context is done from the
    third look on. *)
Definition stuckEnv : Env :=
  mkEnv (fun _ => "run-a") (fun _ => None) (fun _ p => inl p)
        (fun _ => inl []) (fun _ => inl (pod "run-a" apiv1.PodRunning))
        (fun _ => false) (fun _ => false) (fun k => (2 <=? k)%nat).

(** The checker as handed to [Run]: no client yet, not in debug mode. *)
Definition start : State := mkState checker [] 0.

(** The API refuses the first delete (tick 1), so the first iteration
    fails; the second iteration (ticks 2 to 8) meets a cluster in order:
    the pod of run-b is seen Running, then Succeeded, and no timer
    fires. *)
Definition flakyEnv : Env :=
  mkEnv (fun t => if (t =? 0)%nat then "run-a" else "run-b")
        (fun t => if (t =? 1)%nat then Some (StatusError "connection refused")
                  else None)
        (fun _ p => inl p)
        (fun t => inl [event (pod "run-b"
                                (if (t =? 5)%nat then apiv1.PodRunning
                                 else apiv1.PodSucceeded))])
        (fun _ => inr (StatusNotFound "pods" "external-check"))
        (fun _ => false) (fun _ => false) (fun _ => false).

(** The pod is still Pending when the first watch (tick 3) is closed by
    the server, after the startup timer has fired; at the select
    (tick 4) both cases are ready and the run-time takes [pick]. The
    second watch (tick 5) shows the pod Succeeded. *)
Definition slowStartEnv (pick : bool) : Env :=
  mkEnv (fun _ => "run-a") (fun _ => None) (fun _ p => inl p)
        (fun t => inl [event (pod "run-a"
                                (if (t =? 3)%nat then apiv1.PodPending
                                 else apiv1.PodSucceeded))])
        (fun _ => inr (StatusNotFound "pods" "external-check"))
        (fun t => (t =? 4)%nat) (fun _ => pick) (fun _ => false).
End Sample.

(** ** More vocabulary: the paths of an iteration *)

(** The pod [createPod] builds from a checker whose pod spec is
    [spec]. *)
Definition builtPod (ext : Checker) (spec : apiv1.PodSpec) : apiv1.Pod :=
  stackLabels ext
    (apiv1.mkPod (metav1.mkObjectMeta (PodName ext) (Namespace ext) None)
                 spec (apiv1.mkPodStatus "" None)).

(** The selector both watchers send. *)
Definition runSelector (ext : Checker) : string :=
  "kuberhealthy-run-id=" +:+ currentCheckUUID ext.

(** Where an iteration ends. *)
Inductive Path :=
| InvalidSpec (e : error)
| SanityViolation (e : error)
| StraysNotDeleted (e : error)
| NotCreated (e : error)
| StartupTimeout (deleted : option error)
| RunTimeout (deleted : option error)
| Done.

(** The path [execute] takes from state [s], read off the answers of the
    environment. *)
Definition pathOf (E : Env) (client : option Clientset) (s : State) : Path :=
  let ext0 := minted E client s in
  let t := st_tick s in
  match validatePodSpec ext0 with
  | Some e => InvalidSpec e
  | None =>
      match sanityCheck ext0 with
      | Some e => SanityViolation e
      | None =>
          match env_deleteCollection E (t + 1) with
          | Some e => StraysNotDeleted e
          | None =>
              let spec := default apiv1.zeroPodSpec (PodSpec ext0) in
              let ext1 := setPodSpec ext0 (Some (decoratedSpec ext0 spec)) in
              match env_create E (t + 2)
                      (builtPod ext1 (decoratedSpec ext0 spec)) with
              | inr e => NotCreated e
              | inl _ =>
                  if timerCase E (t + 4)
                  then StartupTimeout (env_deleteCollection E (t + 5))
                  else if timerCase E (t + 6)
                  then RunTimeout (env_deleteCollection E (t + 7))
                  else Done
              end
          end
      end
  end.

(** The error a path ends with. *)
Definition pathError (p : Path) : option error :=
  match p with
  | InvalidSpec e => Some e
  | SanityViolation e => Some e
  | StraysNotDeleted e =>
      errors.New ("failed to clean up pods before starting external checker: "
                  +:+ Error e)
  | NotCreated e => errors.New ("failed to create pod for checker: " +:+ Error e)
  | StartupTimeout deleted =>
      errors.New (timeoutMessage "failed to see pod running within timeout"
                    " and an error occurred when deleting the pod:" deleted)
  | RunTimeout deleted =>
      errors.New (timeoutMessage "pod ran too long and was shut down"
                    " but an error occurred when deleting the pod:" deleted)
  | Done => None
  end.

(** The actions a path adds to the trace, for a checker [ext] and the
    pod [pod] it builds. *)
Definition pathActions (ext : Checker) (pod : apiv1.Pod) (p : Path) : list Action :=
  let delete := ADeleteCollection (Namespace ext) (checkSelector ext) in
  let create := ACreate (Namespace ext) pod in
  let watch := AWatch (Namespace ext) (runSelector ext) in
  match p with
  | InvalidSpec _ | SanityViolation _ => []
  | StraysNotDeleted _ => [delete]
  | NotCreated _ => [delete; create]
  | StartupTimeout _ => [delete; create; watch; ACancel; delete]
  | RunTimeout _ => [delete; create; watch; watch; ACancel; delete]
  | Done => [delete; create; watch; watch]
  end.

(** The questions a path asks of the environment. *)
Definition pathTicks (p : Path) : nat :=
  match p with
  | InvalidSpec _ | SanityViolation _ => 1
  | StraysNotDeleted _ => 2
  | NotCreated _ => 3
  | StartupTimeout _ => 6
  | RunTimeout _ => 8
  | Done => 7
  end.

(** The checker a path leaves behind, from the checker [ext0] with the
    client stored and the run id minted. *)
Definition pathChecker (ext0 : Checker) (p : Path) : Checker :=
  let spec := default apiv1.zeroPodSpec (PodSpec ext0) in
  let ext1 := setPodSpec ext0 (Some (decoratedSpec ext0 spec)) in
  match p with
  | InvalidSpec _ => ext0
  | SanityViolation _ | StraysNotDeleted _ | NotCreated _ | StartupTimeout _ => ext1
  | RunTimeout _ | Done => setPodDeployedField ext1 true
  end.

(** The create asked at tick [t] succeeds, whatever the pod. *)
Definition createSucceeds (E : Env) (t : nat) : Prop :=
  ∀ pod, ∃ created, env_create E t pod = inl created.

Definition isSleep (a : Action) : bool :=
  match a with ASleep _ => true | _ => false end.

Definition isCreate (a : Action) : bool :=
  match a with ACreate _ _ => true | _ => false end.

(** The phases of the pods of run [uuid] among the events of a watch, in
    order: what is left once the events that are no pods and the pods
    of other runs are dropped. *)
Fixpoint ownPhases (uuid : string) (events : list watch.Event) : list apiv1.PodPhase :=
  match events with
  | [] => []
  | e :: rest =>
      match watch.Object_ e with
      | watch.OtherObject => ownPhases uuid rest
      | watch.PodObject p =>
          if String.eqb (apiv1.label p kuberhealthyRunIDLabel) uuid
          then apiv1.Phase (apiv1.Status p) :: ownPhases uuid rest
          else ownPhases uuid rest
      end
  end.

(** The error both watchers signal when the watch ends too soon. *)
Definition prematureClose : option error :=
  Some (errorString "external checker watch aborted pre-maturely").

(** A checker with other init containers in its pod spec. *)
Definition withInitContainers (ext : Checker) (inits : list apiv1.Container) : Checker :=
  match PodSpec ext with
  | None => ext
  | Some spec =>
      setPodSpec ext
        (Some (apiv1.mkPodSpec (apiv1.Volumes spec) inits (apiv1.Containers spec)
                 (apiv1.RestartPolicy_ spec) (apiv1.NodeSelector spec)
                 (apiv1.ServiceAccountName spec) (apiv1.Hostname spec)
                 (apiv1.Tolerations spec)))
  end.

(** The actions a run added to the trace it started from. *)
Definition addedTo {A} (s : State) (o : Outcome A) : list Action :=
  drop (length (st_trace s)) (st_trace (stateOf o)).

(** What a watcher signals for a sequence of phases of its own pod:
    the loop of [drainEvents] with every event a pod of the run. *)
Fixpoint signalFor (target : apiv1.PodPhase → bool) (aborted : string)
    (ctx : Context) (looks : nat) (phases : list apiv1.PodPhase) : option error :=
  match phases with
  | [] => prematureClose
  | phase :: rest =>
      if target phase then None
      else if ctx looks then errors.New aborted
      else signalFor target aborted ctx (S looks) rest
  end.

(** The two variables of run [uuid]. *)
Definition runEnv (url uuid : string) : list apiv1.EnvVar :=
  [ apiv1.mkEnvVar "KUBERHEALTHY_URL" url;
    apiv1.mkEnvVar "KUBERHEALTHY_RUN_ID" uuid ].

(** What an iteration may ask of the cluster, for a checker [ext] and
    the run id [uuid]: deletes by the check-name selector, watches by the
    run-id selector, creates in the namespace, and cancels. *)
Definition iterationAction (ext : Checker) (uuid : string) (a : Action) : Prop :=
  match a with
  | ADeleteCollection ns selector =>
      ns = Namespace ext ∧ selector = "kuberhealthy-check-name=" +:+ CheckName ext
  | AWatch ns selector =>
      ns = Namespace ext ∧ selector = "kuberhealthy-run-id=" +:+ uuid
  | ACreate ns _ => ns = Namespace ext
  | ACancel => True
  | ASleep _ | AGet _ _ => False
  end.

(** ** More sample inputs *)

Module Cases.
(** A checker fresh from [New], no pod spec attached. *)
Definition bare : State := mkState (fst (New "kh")) [] 0.

(** The sample checker in debug mode. *)
Definition debugging : State :=
  mkState
    (mkChecker "external-check" "kh" [] defaultRunInterval defaultMaxRunTime
       defaultMaxStartTime None (Some Sample.spec) false "external-check" ""
       DefaultKuberhealthyReportingURL "" true)
    [] 0.

(** The API refuses every create. *)
Definition refusingEnv : Env :=
  mkEnv (fun _ => "run-a") (fun _ => None)
        (fun _ _ => inr (StatusError "quota exceeded"))
        (fun _ => inl []) (fun _ => inr (StatusNotFound "pods" "external-check"))
        (fun _ => false) (fun _ => false) (fun _ => false).

(** The pod starts and keeps running: at the second select (tick 6) the
    timer has fired and its case is taken; the delete that follows
    (tick 7) fails. *)
Definition longRunEnv : Env :=
  mkEnv (fun _ => "run-a")
        (fun t => if (t =? 7)%nat then Some (StatusError "gone away") else None)
        (fun _ p => inl p)
        (fun _ => inl [Sample.event (Sample.pod "run-a" apiv1.PodRunning)])
        (fun _ => inr (StatusNotFound "pods" "external-check"))
        (fun t => (t =? 6)%nat) (fun _ => true) (fun _ => false).

(** Every delete fails. *)
Definition lockedEnv : Env :=
  mkEnv (fun _ => "run-a") (fun _ => Some (StatusError "forbidden"))
        (fun _ p => inl p) (fun _ => inl [])
        (fun _ => inr (StatusNotFound "pods" "external-check"))
        (fun _ => false) (fun _ => false) (fun _ => false).

(** A watch that shows a foreign pod Failed, something that is no pod,
    then the pod of run-a Pending, Running and Succeeded. *)
Definition noisyEvents : list watch.Event :=
  [ Sample.event (Sample.pod "run-z" apiv1.PodFailed);
    watch.mkEvent "ERROR" watch.OtherObject;
    Sample.event (Sample.pod "run-a" apiv1.PodPending);
    Sample.event (Sample.pod "run-a" apiv1.PodRunning);
    Sample.event (Sample.pod "run-a" apiv1.PodSucceeded) ].

Definition ownEvents : list watch.Event :=
  [ Sample.event (Sample.pod "run-a" apiv1.PodPending);
    Sample.event (Sample.pod "run-a" apiv1.PodRunning);
    Sample.event (Sample.pod "run-a" apiv1.PodSucceeded) ].

(** The checker idle in the middle of run-a, and a cluster whose watch
    shows [noisyEvents]. *)
Definition watching : State :=
  mkState (setCurrentCheckUUID (setKubeClient Sample.checker (Some 0)) "run-a") [] 0.

Definition noisyEnv : Env :=
  mkEnv (fun _ => "run-a") (fun _ => None) (fun _ p => inl p)
        (fun _ => inl noisyEvents)
        (fun _ => inr (StatusNotFound "pods" "external-check"))
        (fun _ => false) (fun _ => false) (fun _ => false).

(** A pod spec whose second container has no image. *)
Definition unnamedImage : apiv1.Container :=
  apiv1.mkContainer "sidecar" "" [] [] [] (apiv1.mkResourceRequirements ∅ ∅).

Definition twoContainers : Checker :=
  setPodSpec Sample.checker
    (Some (apiv1.setContainers Sample.spec
             [Sample.container; unnamedImage; Sample.container])).
End Cases.

(** ** The environment slices in memory *)

(** The decoration above works on the values the [Env] fields hold. In
    Go an [Env] field is a slice: a window on a backing array, and
    [append] writes into that array when the capacity of the slice
    allows. Two slices on one array see each other's writes. What
    follows models the [Env] slices of a pod spec with their backing
    arrays, the container structs that hold the slice headers, and the
    decoration on them. [Containers] and [InitContainers] are slices of
    structs themselves, and may be windows on the same structs. The
    other fields of a container are not written by the decoration and
    stay with the pod spec value. *)
Module goslice.
(** A slice header: the backing array, by its number in the heap, the
    index of the first element in it, the length and the capacity. The
    nil slice has length and capacity 0. *)
Record Slice := mkSlice {
  array : nat;
  offset : nat;
  len : nat;
  cap : nat;
}.

Abbreviation Heap := (list (list apiv1.EnvVar)).

Definition nil : Slice := mkSlice 0 0 0 0.

(** The zero [EnvVar], which fills the spare room of a new array. *)
Definition zero : apiv1.EnvVar := apiv1.mkEnvVar "" "".

Definition backing (h : Heap) (s : Slice) : list apiv1.EnvVar :=
  default [] (h !! array s).

(** The elements a slice shows. *)
Definition contents (h : Heap) (s : Slice) : list apiv1.EnvVar :=
  take (len s) (drop (offset s) (backing h s)).

(** [l] with [vs] written over its elements from index [p] on. *)
Definition writeAt (l : list apiv1.EnvVar) (p : nat) (vs : list apiv1.EnvVar)
    : list apiv1.EnvVar :=
  take p l ++ vs ++ drop (p + length vs) l.

(** [append(s, vs...)]. If the elements fit in the capacity they are
    written into the backing array behind the slice, and the result is a
    longer window on the same array. If not, a new array is made, with
    the elements of [s], then [vs], then spare room; how much room is up
    to the run-time, which [grow] stands for (old capacity and length
    needed to new capacity; never less than what is needed). *)
Definition append (grow : nat → nat → nat) (h : Heap) (s : Slice)
    (vs : list apiv1.EnvVar) : Heap * Slice :=
  let n := len s + length vs in
  if n <=? cap s then
    (<[array s := writeAt (backing h s) (offset s + len s) vs]> h,
     mkSlice (array s) (offset s) n (cap s))
  else
    let newcap := n `max` grow (cap s) n in
    (h ++ [contents h s ++ vs ++ replicate (newcap - n) zero],
     mkSlice (length h) 0 n newcap).

(** A slice lies within its array. *)
Definition wf (h : Heap) (s : Slice) : Prop :=
  len s ≤ cap s ∧ offset s + cap s ≤ length (backing h s).

(** Two slices share no element, spare room included. *)
Definition disjoint (s t : Slice) : Prop :=
  array s ≠ array t
  ∨ offset s + cap s ≤ offset t
  ∨ offset t + cap t ≤ offset s.

Fixpoint separated (l : list Slice) : Prop :=
  match l with
  | [] => True
  | s :: rest => Forall (disjoint s) rest ∧ separated rest
  end.
End goslice.

(** Where the environments of a pod spec are. [env_heap] holds the
    arrays of variables. [env_fields] is the memory of container
    structs, by address, each struct given by the header of its [Env]
    slice. [Containers] is the window of [containers_len] structs from
    address [containers_at] on, [InitContainers] that of [inits_len]
    structs from [inits_at] on. *)
Record PodMemory := mkPodMemory {
  env_heap : goslice.Heap;
  env_fields : list goslice.Slice;
  containers_at : nat;
  containers_len : nat;
  inits_at : nat;
  inits_len : nat;
}.

(** The [Env] slices of the containers and of the init containers, in
    the order of the lists. *)
Definition env_containers (L : PodMemory) : list goslice.Slice :=
  take (containers_len L) (drop (containers_at L) (env_fields L)).

Definition env_inits (L : PodMemory) : list goslice.Slice :=
  take (inits_len L) (drop (inits_at L) (env_fields L)).

(** The environment of the [i]-th container and of the [i]-th init
    container, read from memory. *)
Definition containerEnv (L : PodMemory) (i : nat) : option (list apiv1.EnvVar) :=
  goslice.contents (env_heap L) <$> env_containers L !! i.

Definition initEnv (L : PodMemory) (i : nat) : option (list apiv1.EnvVar) :=
  goslice.contents (env_heap L) <$> env_inits L !! i.

(** The loop [for i := range Containers { Containers[i].Env =
    append(Containers[i].Env, vars...) }]: round after round, from the
    struct at address [addr] on, [n] structs to go. A round reads the
    slice header in the struct, appends, and stores the header [append]
    returns in the struct. *)
Fixpoint appendEnvsAt (grow : nat → nat → nat) (vars : list apiv1.EnvVar)
    (h : goslice.Heap) (fields : list goslice.Slice) (addr n : nat)
    : goslice.Heap * list goslice.Slice :=
  match n with
  | O => (h, fields)
  | S n' =>
      match fields !! addr with
      | None => (h, fields)
      | Some s =>
          let '(h1, s1) := goslice.append grow h s vars in
          appendEnvsAt grow vars h1 (<[addr := s1]> fields) (S addr) n'
      end
  end.

(** The same appends on the list of the slices visited, the headers
    returned collected in a list. *)
Fixpoint appendEnvs (grow : nat → nat → nat) (vars : list apiv1.EnvVar)
    (h : goslice.Heap) (slices : list goslice.Slice)
    : goslice.Heap * list goslice.Slice :=
  match slices with
  | [] => (h, [])
  | s :: rest =>
      let '(h1, s1) := goslice.append grow h s vars in
      let '(h2, out) := appendEnvs grow vars h1 rest in
      (h2, s1 :: out)
  end.

(** [configureUserPodSpec] on a checker whose pod spec has its
    environments in memory as [L] says. The [Env] fields of the pod spec
    value are not read and not written here: the environments are in
    [L]. *)
Definition configureUserPodSpecMem (grow : nat → nat → nat) (ext : Checker)
    (L : PodMemory) : option (Checker * PodMemory * option error) :=
  match PodSpec ext with
  | None => None
  | Some spec =>
      let spec := apiv1.setHostname spec (CheckName ext) in
      let '(h, fields) :=
        appendEnvsAt grow (overwriteEnvVars ext) (env_heap L) (env_fields L)
                     (containers_at L) (containers_len L) in
      let spec := apiv1.setRestartPolicy spec apiv1.RestartPolicyNever in
      Some (setPodSpec ext (Some spec),
            mkPodMemory h fields (containers_at L) (containers_len L)
                        (inits_at L) (inits_len L),
            None)
  end.

(** The pod spec as a value, with the environments read from memory. *)
Definition viewSpec (L : PodMemory) (spec : apiv1.PodSpec) : apiv1.PodSpec :=
  apiv1.mkPodSpec (apiv1.Volumes spec)
    (zip_with apiv1.setEnv (apiv1.InitContainers spec)
              (goslice.contents (env_heap L) <$> env_inits L))
    (zip_with apiv1.setEnv (apiv1.Containers spec)
              (goslice.contents (env_heap L) <$> env_containers L))
    (apiv1.RestartPolicy_ spec) (apiv1.NodeSelector spec)
    (apiv1.ServiceAccountName spec) (apiv1.Hostname spec)
    (apiv1.Tolerations spec).

Definition viewChecker (L : PodMemory) (ext : Checker) : Checker :=
  setPodSpec ext (viewSpec L <$> PodSpec ext).


(** Did the run end in a panic? *)
Definition panics {A} (o : Outcome A) : bool :=
  match o with
  | Panicked _ => true
  | _ => false
  end.


(** The window [Containers] lies within the memory of structs, and the
    environment slices of the containers lie within their arrays and no
    two of them share an element or spare room. *)
Definition separateContainers (L : PodMemory) : Prop :=
  containers_at L + containers_len L ≤ length (env_fields L)
  ∧ Forall (goslice.wf (env_heap L)) (env_containers L)
  ∧ goslice.separated (env_containers L).

(** The windows [Containers] and [InitContainers] lie within the memory
    of structs and share no struct; the environment slices lie within
    their arrays and no two of them, of containers or init containers,
    share an element or spare room. This is what decoding a pod spec
    gives: each list on structs of its own, each environment on an
    array of its own. *)
Definition separateStorage (L : PodMemory) : Prop :=
  containers_at L + containers_len L ≤ length (env_fields L)
  ∧ inits_at L + inits_len L ≤ length (env_fields L)
  ∧ (containers_at L + containers_len L ≤ inits_at L
     ∨ inits_at L + inits_len L ≤ containers_at L)
  ∧ Forall (goslice.wf (env_heap L)) (env_containers L ++ env_inits L)
  ∧ goslice.separated (env_containers L ++ env_inits L).

(** The decoration of the next iteration, in memory. *)
Definition redecorateMem (grow : nat → nat → nat) (m : Checker * PodMemory)
    (uuid : string) : Checker * PodMemory :=
  match configureUserPodSpecMem grow (setCurrentCheckUUID m.1 uuid) m.2 with
  | Some (ext', L', _) => (ext', L')
  | None => m
  end.

(** ** Sample layouts *)

Module Mem.
Definition A : apiv1.EnvVar := apiv1.mkEnvVar "A" "1".
Definition B : apiv1.EnvVar := apiv1.mkEnvVar "B" "2".

(** The run-time doubles. *)
Definition grow (old need : nat) : nat := 2 * need.

(** The sample checker in the middle of run-a, with the one variable
    of its one container on an array of its own, no room to spare. *)
Definition checker : Checker := setCurrentCheckUUID Sample.checker "run-a".

Definition plain : PodMemory :=
  mkPodMemory [[apiv1.mkEnvVar "MODE" "fast"]] [goslice.mkSlice 0 0 1 1]
              0 1 1 0.

(** Two containers whose environments are windows on one array
    [A; B; C] with room for three more: the first shows [A], the second
    [A; B; C]. *)
Definition twoContainers : Checker :=
  setCurrentCheckUUID
    (setPodSpec Sample.checker
       (Some (apiv1.setContainers Sample.spec
                [Sample.container; Sample.container])))
    "run-a".


(** One container and one init container on one array [A; B; C]: the
    container shows [A], with room up to the end of the array, the init
    container [A; B; C]. *)
Definition withInit : Checker :=
  setCurrentCheckUUID
    (setPodSpec Sample.checker
       (Some (apiv1.mkPodSpec ["scratch"] [Sample.container] [Sample.container]
                "Always" ∅ "checker" "" [])))
    "run-a".



(** One struct that is both the container and the init container of
    the pod spec, its environment nil. *)
Definition oneStruct : PodMemory :=
  mkPodMemory [] [goslice.nil] 0 1 0 1.


End Mem.

(** * Properties *)

(** ** Strings and small facts *)

Lemma length_zero_empty (s : string) : (String.length s =? 0)%nat = true ↔ s = "".
Proof.
  destruct s; simpl; split; intros H; try done.
Qed.

(** ** The status query *)

(** C7. For every checker the status query answers OK with an empty list
    of diagnostics exactly when the error buffer is empty, and Failing
    with the error buffer otherwise; run as an operation on the state it
    leaves the state as it found it. *)
Theorem CurrentStatus_reflects_buffer (ext : Checker) :
  (CurrentStatus ext = (true, []) ↔ ErrorMessages ext = [])
  ∧ (CurrentStatus ext = (false, ErrorMessages ext) ↔ ErrorMessages ext ≠ [])
  ∧ (∀ s : State,
       (e <- this ;; ret (CurrentStatus e)) s
       = Returned (CurrentStatus (st_ext s)) s).
Proof.
  unfold CurrentStatus.
  destruct (ErrorMessages ext) as [|m ms] eqn:Hbuf; simpl;
    repeat split; intros; congruence.
Qed.

(** ** Defaults *)

(** C9. The checker [New] builds has run interval 10 minutes, startup
    timeout 5 minutes, max run time 15 minutes (in nanoseconds), the
    cluster-local reporting URL and the check name external-check; the
    name any checker exposes is external-check- followed by its check
    name. *)
Theorem New_defaults (namespace : string) :
  snd (New namespace) = None
  ∧ RunInterval (fst (New namespace)) = (10 * 60 * 1000000000)%Z
  ∧ startupTimeout (fst (New namespace)) = (5 * 60 * 1000000000)%Z
  ∧ maxRunTime (fst (New namespace)) = (15 * 60 * 1000000000)%Z
  ∧ Interval (fst (New namespace)) = (10 * 60 * 1000000000)%Z
  ∧ Timeout (fst (New namespace)) = (15 * 60 * 1000000000)%Z
  ∧ KuberhealthyReportingURL (fst (New namespace))
    = "http://kuberhealthy.kuberhealthy.svc.local"
  ∧ CheckName (fst (New namespace)) = "external-check"
  ∧ (∀ ext : Checker, Name ext = "external-check-" +:+ CheckName ext).
Proof.
  repeat split; reflexivity.
Qed.

(** ** Validation *)

Lemma validateImages_ok (cs : list apiv1.Container) :
  validateImages cs = None ↔ Forall (fun c => apiv1.Image c ≠ "") cs.
Proof.
  induction cs as [|c cs IH]; simpl.
  - split; [constructor | done].
  - destruct (String.length (apiv1.Image c) =? 0)%nat eqn:Hlen.
    + apply length_zero_empty in Hlen. split; [done |].
      intros Hall. inversion Hall as [|? ? Himg _]. done.
    + rewrite IH. split.
      * intros Hall. constructor; [| done].
        intros Himg. rewrite Himg in Hlen. discriminate Hlen.
      * intros Hall. by inversion Hall.
Qed.

Lemma validateImages_errorString (cs : list apiv1.Container) (e : error) :
  validateImages cs = Some e → ∃ msg, e = errorString msg.
Proof.
  induction cs as [|c cs IH]; simpl; [done |].
  destruct (String.length (apiv1.Image c) =? 0)%nat; [| done].
  unfold errors.New. intros [= <-]. eauto.
Qed.

Lemma validatePodSpec_ok (ext : Checker) :
  validatePodSpec ext = None
  ↔ ∃ spec, PodSpec ext = Some spec
            ∧ apiv1.Containers spec ≠ []
            ∧ Forall (fun c => apiv1.Image c ≠ "") (apiv1.Containers spec).
Proof.
  unfold validatePodSpec.
  destruct (PodSpec ext) as [spec|]; [| split; [done | by intros (? & ? & _)]].
  destruct (apiv1.Containers spec) as [|c cs] eqn:Hcs; simpl.
  - destruct (length (apiv1.InitContainers spec) =? 0)%nat;
      (split; [done | by intros (? & [= <-] & Hne & _); rewrite Hcs in Hne]).
  - pose proof (validateImages_ok (c :: cs)) as Hv. simpl in Hv.
    rewrite Hv. split.
    + intros Hall. exists spec. by rewrite Hcs.
    + intros (? & [= <-] & _ & Hall). by rewrite Hcs in Hall.
Qed.

(** C5. [validatePodSpec] returns an error if and only if the pod spec
    is nil, the container list is empty, or some container has an empty
    image; on every other spec it returns nil. The errors are plain
    [errors.New] values. *)
Theorem validatePodSpec_error_iff (ext : Checker) :
  (is_Some (validatePodSpec ext)
   ↔ PodSpec ext = None
     ∨ ∃ spec, PodSpec ext = Some spec
               ∧ (apiv1.Containers spec = []
                  ∨ ∃ c, c ∈ apiv1.Containers spec ∧ apiv1.Image c = ""))
  ∧ (validatePodSpec ext = None
     ↔ ∃ spec, PodSpec ext = Some spec
               ∧ apiv1.Containers spec ≠ []
               ∧ Forall (fun c => apiv1.Image c ≠ "") (apiv1.Containers spec))
  ∧ (∀ e, validatePodSpec ext = Some e → ∃ msg, e = errorString msg).
Proof.
  split; [| split; [apply validatePodSpec_ok |]].
  - rewrite <- not_eq_None_Some, validatePodSpec_ok. split.
    + intros Hno. destruct (PodSpec ext) as [spec|]; [right | by left].
      exists spec. split; [done |].
      destruct (apiv1.Containers spec) as [|c cs] eqn:Hcs; [by left | right].
      destruct (decide (Forall (fun c => apiv1.Image c ≠ "") (c :: cs)))
        as [Hall | Hex].
      * exfalso. apply Hno. exists spec. by rewrite Hcs.
      * apply not_Forall_Exists in Hex; [| intros x; apply _].
        apply list.Exists_exists in Hex as (x & Hin & Himg).
        exists x. split; [done |].
        by destruct (decide (apiv1.Image x = "")).
    + intros [Hnil | (spec & Hspec & [Hemp | (c & Hin & Himg)])]
             (spec' & Hspec' & Hne & Hall); simplify_eq.
      rewrite list.Forall_forall in Hall. by apply (Hall c).
  - unfold validatePodSpec. intros e.
    destruct (PodSpec ext) as [spec|]; [| intros [= <-]; eauto].
    destruct (_ && _); [intros [= <-]; eauto |].
    destruct (_ =? _)%nat; [intros [= <-]; eauto |].
    apply validateImages_errorString.
Qed.

(** ** Decoration *)

Section ApplyEnvVars.
Variable vars : list apiv1.EnvVar.

Let extend (c : apiv1.Container) : apiv1.Container :=
  apiv1.setEnv c (apiv1.Env c ++ vars).

(** After the first [k] rounds of the loop the first [k] containers
    are extended and the others are as they were. *)
Lemma applyEnvVars_prefix (cs : list apiv1.Container) (k : nat) :
  k ≤ length cs →
  foldl (appendEnvAt vars) cs (seq 0 k) = (extend <$> take k cs) ++ drop k cs.
Proof.
  induction k as [|k IH]; intros Hk.
  - by rewrite take_0, drop_0.
  - rewrite seq_S, foldl_app, IH by lia. simpl.
    destruct (lookup_lt_is_Some_2 cs k ltac:(lia)) as [c Hc].
    assert (Hlen : length (extend <$> take k cs) = k).
    { rewrite length_fmap, length_take. lia. }
    unfold appendEnvAt.
    rewrite lookup_app_r by lia.
    rewrite Hlen, Nat.sub_diag, (drop_S _ _ _ Hc). simpl.
    rewrite insert_app_r_alt by lia.
    rewrite Hlen, Nat.sub_diag. simpl.
    rewrite (take_S_r _ _ _ Hc), fmap_app. simpl.
    by rewrite <- app_assoc.
Qed.

Lemma applyEnvVars_fmap (cs : list apiv1.Container) :
  applyEnvVars vars cs = extend <$> cs.
Proof.
  unfold applyEnvVars.
  rewrite applyEnvVars_prefix by lia.
  by rewrite take_ge, drop_ge, app_nil_r by lia.
Qed.
End ApplyEnvVars.

Lemma configureUserPodSpec_eq (ext : Checker) (spec : apiv1.PodSpec) :
  PodSpec ext = Some spec →
  configureUserPodSpec ext
  = Some (setPodSpec ext (Some (decoratedSpec ext spec)), None).
Proof.
  intros Hspec. unfold configureUserPodSpec. rewrite Hspec. simpl.
  by rewrite applyEnvVars_fmap.
Qed.

Lemma stackLabels_lookup (ext : Checker) (pod : apiv1.Pod) (k : string) :
  labelsOf (stackLabels ext pod) !! k
  = if decide (k = kuberhealthyCheckNameLabel) then Some (CheckName ext)
    else if decide (k = kuberhealthyRunIDLabel) then Some (currentCheckUUID ext)
    else labelsOf pod !! k.
Proof.
  unfold stackLabels, labelsOf. simpl.
  rewrite !lookup_insert.
  repeat case_decide; congruence.
Qed.

(** ** Running the monad *)

Ltac run :=
  unfold orReturn, podDeployed, deletePod, createPod, createCheckUUID,
    setPodDeployed, selectTimer, podClient, Sleep, bind, ret, this, update,
    act, ask, panic, outOfFuel; simpl.

Lemma podExists_run (E : Env) (s : State) (c : Clientset) :
  kubeClient (st_ext s) = Some c →
  podExists E s
  = Returned
      match env_get E (st_tick s) with
      | inr err => (false, Some err)
      | inl p =>
          (negb (metav1.IsZero (apiv1.StartTime (apiv1.Status p)))
           && negb (String.eqb (apiv1.Phase (apiv1.Status p)) apiv1.PodFailed),
           None)
      end
      (mkState (st_ext s)
               (st_trace s ++ [AGet (Namespace (st_ext s)) (PodName (st_ext s))])
               (S (st_tick s))).
Proof.
  intros Hc. unfold podExists. run. rewrite Hc. simpl.
  destruct (env_get E (st_tick s)) as [p | err]; [| done].
  by destruct (negb _ && negb _).
Qed.

Lemma startedAndNotFailed_test (p : apiv1.Pod) :
  negb (metav1.IsZero (apiv1.StartTime (apiv1.Status p)))
  && negb (String.eqb (apiv1.Phase (apiv1.Status p)) apiv1.PodFailed) = true
  ↔ startedAndNotFailed p.
Proof.
  unfold startedAndNotFailed.
  rewrite andb_true_iff, !negb_true_iff, String.eqb_neq. done.
Qed.

Lemma not_startedAndNotFailed (p : apiv1.Pod) :
  ¬ startedAndNotFailed p
  ↔ metav1.IsZero (apiv1.StartTime (apiv1.Status p)) = true
    ∨ apiv1.Phase (apiv1.Status p) = apiv1.PodFailed.
Proof.
  unfold startedAndNotFailed.
  destruct (metav1.IsZero _);
    destruct (decide (apiv1.Phase (apiv1.Status p) = apiv1.PodFailed));
    intuition congruence.
Qed.

(** ** The probe of the shutdown loop *)

(** C10. With a client set, [podExists] asks the API once for the pod by
    name. It answers true only when the get succeeds, the start time of
    the pod is not zero and its phase is not Failed; a pod the API still
    returns, but Failed or without a start time, is reported as not
    existing; an error of the get, not-found included, comes back as an
    error (with false), and [waitForShutdown] returns that error to its
    caller instead of taking it for the pod being gone. *)
Theorem podExists_spec (E : Env) (s : State) (c : Clientset) :
  kubeClient (st_ext s) = Some c →
  ∃ r s',
    podExists E s = Returned r s'
    ∧ s' = mkState (st_ext s)
             (st_trace s ++ [AGet (Namespace (st_ext s)) (PodName (st_ext s))])
             (S (st_tick s))
    ∧ (r = (true, None)
       ↔ ∃ p, env_get E (st_tick s) = inl p ∧ startedAndNotFailed p)
    ∧ (∀ p, env_get E (st_tick s) = inl p →
            metav1.IsZero (apiv1.StartTime (apiv1.Status p)) = true
            ∨ apiv1.Phase (apiv1.Status p) = apiv1.PodFailed →
            r = (false, None))
    ∧ (∀ err, env_get E (st_tick s) = inr err →
              r = (false, Some err)
              ∧ ∀ ctx fuel looks,
                  waitForShutdown E ctx (S fuel) looks s
                  = Returned (Some err)
                      (mkState (st_ext s)
                         (st_trace s
                          ++ [ASleep 500000000%Z;
                              AGet (Namespace (st_ext s)) (PodName (st_ext s))])
                         (S (st_tick s)))).
Proof.
  intros Hc. eexists _, _. split; [by apply (podExists_run E s c) |].
  split; [reflexivity |].
  destruct (env_get E (st_tick s)) as [p | err] eqn:Hget.
  - split; [| split; [| done]].
    + split.
      * intros [= Htest]. exists p. split; [done |].
        by apply startedAndNotFailed_test.
      * intros (p' & [= <-] & Hlive).
        apply startedAndNotFailed_test in Hlive. by rewrite Hlive.
    + intros p' [= <-] Hdead. apply not_startedAndNotFailed in Hdead.
      rewrite <- startedAndNotFailed_test in Hdead.
      by destruct (negb _ && negb _).
  - split; [split; [done | by intros (p & ? & _)] |].
    split; [done |].
    intros err' [= <-]. split; [done |].
    intros ctx fuel looks. simpl. unfold bind at 1, Sleep, act at 1.
    unfold bind at 1. rewrite (podExists_run E _ c) by done. simpl.
    rewrite Hget. unfold ret. by rewrite <- app_assoc.
Qed.

Lemma podExists_spec_witness :
  kubeClient (st_ext Sample.deployed) = Some 0
  ∧ ∃ r s', podExists Sample.goneEnv Sample.deployed = Returned r s'
            ∧ r = (false, Some (StatusNotFound "pods" "external-check")).
Proof.
  split; [reflexivity |].
  destruct (podExists_spec Sample.goneEnv Sample.deployed 0 eq_refl)
    as (r & s' & Hrun & _ & _ & _ & Herr).
  exists r, s'. split; [exact Hrun |].
  exact (proj1 (Herr _ eq_refl)).
Defined.

(** ** Shutdown *)

Lemma pollActions_S (ext : Checker) (n : nat) :
  pollActions ext (S n)
  = [ASleep 500000000%Z; AGet (Namespace ext) (PodName ext)] ++ pollActions ext n.
Proof. reflexivity. Qed.

Lemma pollActions_snoc (ext : Checker) (n : nat) :
  pollActions ext (S n)
  = pollActions ext n ++ [ASleep 500000000%Z; AGet (Namespace ext) (PodName ext)].
Proof.
  induction n as [|n IH]; [done |].
  rewrite pollActions_S, IH at 1. by rewrite pollActions_S, app_assoc.
Qed.

(** One round of the poll loop. *)
Lemma waitForShutdown_step (E : Env) (ctx : Context) (c : Clientset)
    (fuel looks : nat) (s : State) :
  kubeClient (st_ext s) = Some c →
  waitForShutdown E ctx (S fuel) looks s
  = let s' := mkState (st_ext s) (st_trace s ++ pollActions (st_ext s) 1)
                      (S (st_tick s)) in
    match env_get E (st_tick s) with
    | inr err => Returned (Some err) s'
    | inl p =>
        if negb (metav1.IsZero (apiv1.StartTime (apiv1.Status p)))
           && negb (String.eqb (apiv1.Phase (apiv1.Status p)) apiv1.PodFailed)
        then if ctx looks
             then Returned (errors.New "timed out when waiting for pod to shutdown") s'
             else waitForShutdown E ctx fuel (S looks) s'
        else Returned None s'
    end.
Proof.
  intros Hc. simpl. unfold bind at 1, Sleep, act at 1. unfold bind at 1.
  rewrite (podExists_run E _ c) by done. simpl. rewrite <- app_assoc. simpl.
  destruct (env_get E (st_tick s)) as [p | err]; [| done].
  destruct (negb _ && negb _); [| done].
  by destruct (ctx looks).
Qed.

(** While the pod is reported as existing and the context is not done,
    the loop goes round. *)
Lemma waitForShutdown_rounds (E : Env) (ctx : Context) (c : Clientset) (n : nat) :
  ∀ (fuel looks : nat) (s : State),
    kubeClient (st_ext s) = Some c →
    (∀ k, k < n →
       ∃ q, env_get E (st_tick s + k) = inl q
            ∧ startedAndNotFailed q ∧ ctx (looks + k) = false) →
    waitForShutdown E ctx (n + fuel) looks s
    = waitForShutdown E ctx fuel (looks + n)
        (mkState (st_ext s) (st_trace s ++ pollActions (st_ext s) n)
                 (st_tick s + n)).
Proof.
  induction n as [|n IH]; intros fuel looks s Hc Hlive.
  - destruct s. simpl. by rewrite app_nil_r, !Nat.add_0_r.
  - change (S n + fuel) with (S (n + fuel)).
    rewrite (waitForShutdown_step E ctx c) by done. simpl.
    destruct (Hlive 0 ltac:(lia)) as (q & Hget & Hq & Hctx).
    rewrite Nat.add_0_r in Hget, Hctx. rewrite Hget, Hctx.
    apply startedAndNotFailed_test in Hq. rewrite Hq.
    rewrite IH; simpl; [| done |].
    + rewrite <- app_assoc.
      replace (S (looks + n)) with (looks + S n) by lia.
      replace (S (st_tick s + n)) with (st_tick s + S n) by lia.
      reflexivity.
    + intros k Hk. destruct (Hlive (S k) ltac:(lia)) as (q' & Hget' & Hq' & Hctx').
      exists q'. split; [| split; [done |]].
      * rewrite <- Hget'. f_equal. lia.
      * rewrite <- Hctx'. f_equal. lia.
Qed.

Lemma deletePod_run (E : Env) (s : State) (c : Clientset) :
  kubeClient (st_ext s) = Some c →
  deletePod E s
  = Returned (env_deleteCollection E (st_tick s))
      (mkState (st_ext s)
         (st_trace s
          ++ [ADeleteCollection (Namespace (st_ext s)) (checkSelector (st_ext s))])
         (S (st_tick s))).
Proof. intros Hc. run. by rewrite Hc. Qed.

Lemma orReturn_same (m : M (option error)) (s : State) :
  orReturn m Some (ret None) s = m s.
Proof.
  unfold orReturn, bind, ret.
  by destruct (m s) as [[e|] s' | s' | s'].
Qed.

Lemma Shutdown_not_deployed (E : Env) (fuel : nat) (s : State) :
  PodDeployed (st_ext s) = false → Shutdown E fuel s = Returned None s.
Proof. intros Hd. unfold Shutdown. run. by rewrite Hd. Qed.

Lemma Shutdown_deployed (E : Env) (fuel : nat) (s : State) (c : Clientset) :
  PodDeployed (st_ext s) = true →
  kubeClient (st_ext s) = Some c →
  Shutdown E fuel s
  = match env_deleteCollection E (st_tick s) with
    | Some e =>
        Returned (Some e)
          (mkState (st_ext s)
             (st_trace s
              ++ [ADeleteCollection (Namespace (st_ext s)) (checkSelector (st_ext s))])
             (S (st_tick s)))
    | None =>
        waitForShutdown E (env_shutdownDone E) fuel 0
          (mkState (st_ext s)
             (st_trace s
              ++ [ADeleteCollection (Namespace (st_ext s)) (checkSelector (st_ext s))])
             (S (st_tick s)))
    end.
Proof.
  intros Hd Hc. unfold Shutdown.
  unfold bind at 1, podDeployed, bind at 1, this, ret at 1. rewrite Hd.
  unfold orReturn at 1, bind at 1. rewrite (deletePod_run E s c Hc).
  destruct (env_deleteCollection E (st_tick s)); [done |].
  apply orReturn_same.
Qed.

(** If the delete fails, [Shutdown] returns its error and asks for
    nothing more. *)
Lemma Shutdown_delete_fails (E : Env) (fuel : nat) (s : State) (c : Clientset)
    (e : error) :
  PodDeployed (st_ext s) = true →
  kubeClient (st_ext s) = Some c →
  env_deleteCollection E (st_tick s) = Some e →
  Shutdown E fuel s
  = Returned (Some e)
      (mkState (st_ext s)
         (st_trace s
          ++ [ADeleteCollection (Namespace (st_ext s)) (checkSelector (st_ext s))])
         (S (st_tick s))).
Proof.
  intros Hd Hc He. by rewrite (Shutdown_deployed E fuel s c), He.
Qed.

(** C2, as the code has it. With the pod-deployed flag false, [Shutdown]
    returns nil at once and leaves the state, the trace of actions
    included, as it was. With the flag true, a client set and a delete
    that succeeds, it sends the delete by selector and then polls: each
    round sleeps 500 ms and gets the pod by name; as long as the get
    returns a pod with a start time and a phase other than Failed, and
    the context is not done, it goes round again; it returns nil at the
    first round whose get returns a pod without start time or in phase
    Failed, and the time-out error at the first round where the pod is
    still reported as existing and the context is done. Enough fuel
    for these rounds gives the result. *)
Theorem Shutdown_spec (E : Env) (fuel : nat) (s : State) :
  (PodDeployed (st_ext s) = false → Shutdown E fuel s = Returned None s)
  ∧ (∀ (c : Clientset) (n : nat) (p : apiv1.Pod),
       PodDeployed (st_ext s) = true →
       kubeClient (st_ext s) = Some c →
       env_deleteCollection E (st_tick s) = None →
       (∀ k, k < n →
          ∃ q, env_get E (st_tick s + 1 + k) = inl q
               ∧ startedAndNotFailed q ∧ env_shutdownDone E k = false) →
       env_get E (st_tick s + 1 + n) = inl p →
       n < fuel →
       let s' :=
         mkState (st_ext s)
           (st_trace s
            ++ ADeleteCollection (Namespace (st_ext s))
                 ("kuberhealthy-check-name=" +:+ CheckName (st_ext s))
               :: pollActions (st_ext s) (S n))
           (st_tick s + 2 + n) in
       (¬ startedAndNotFailed p → Shutdown E fuel s = Returned None s')
       ∧ (startedAndNotFailed p → env_shutdownDone E n = true →
          Shutdown E fuel s
          = Returned (Some (errorString "timed out when waiting for pod to shutdown"))
                     s')).
Proof.
  split; [apply Shutdown_not_deployed |].
  intros c n p Hd Hc Hdel Hlive Hget Hfuel s'.
  rewrite (Shutdown_deployed E fuel s c Hd Hc), Hdel.
  replace fuel with (n + S (fuel - S n)) by lia.
  rewrite (waitForShutdown_rounds E _ c n); [| done |]; cycle 1.
  { intros k Hk. destruct (Hlive k Hk) as (q & Hq & Hstarted & Hctx).
    exists q. split; [| done]. rewrite <- Hq. simpl. f_equal. lia. }
  rewrite (waitForShutdown_step E _ c) by done.
  cbn [st_ext st_trace st_tick].
  replace (S (st_tick s) + n) with (st_tick s + 1 + n) by lia.
  rewrite Hget.
  assert (Hs' :
    mkState (st_ext s)
      (((st_trace s
         ++ [ADeleteCollection (Namespace (st_ext s)) (checkSelector (st_ext s))])
        ++ pollActions (st_ext s) n) ++ pollActions (st_ext s) 1)
      (S (st_tick s + 1 + n)) = s').
  { unfold s'. f_equal; [| lia].
    rewrite <- !app_assoc, (pollActions_snoc _ n). reflexivity. }
  rewrite Hs'. split.
  - intros Hdead. rewrite <- startedAndNotFailed_test in Hdead.
    by destruct (negb _ && negb _).
  - intros Hstarted Hdone. apply startedAndNotFailed_test in Hstarted.
    change (0 + n) with n. by rewrite Hstarted, Hdone.
Qed.

Lemma Shutdown_spec_witness :
  Shutdown Sample.quietEnv 1 Sample.idle = Returned None Sample.idle
  ∧ valueOf (Shutdown Sample.lingerEnv 5 Sample.deployed) = Some None
  ∧ valueOf (Shutdown Sample.stuckEnv 5 Sample.deployed)
    = Some (Some (errorString "timed out when waiting for pod to shutdown")).
Proof.
  assert (Hrounds : ∀ E : Env,
            (∀ t, t < 3 → env_get E t = inl (Sample.pod "run-a" apiv1.PodRunning)) →
            (∀ k, k < 2 → env_shutdownDone E k = false) →
            ∀ k, k < 2 →
              ∃ q, env_get E (st_tick Sample.deployed + 1 + k) = inl q
                   ∧ startedAndNotFailed q ∧ env_shutdownDone E k = false).
  { intros E Hget Hdone k Hk.
    exists (Sample.pod "run-a" apiv1.PodRunning).
    split; [apply Hget; simpl; lia |]. split; [| by apply Hdone].
    split; [reflexivity | discriminate]. }
  split; [exact (proj1 (Shutdown_spec Sample.quietEnv 1 Sample.idle) eq_refl) |].
  split.
  - pose proof (proj2 (Shutdown_spec Sample.lingerEnv 5 Sample.deployed)
                  0 2 (Sample.pod "run-a" apiv1.PodFailed)
                  eq_refl eq_refl eq_refl) as Hspec.
    destruct Hspec as [Hnil _]; [| reflexivity | lia |].
    + apply Hrounds; [| reflexivity].
      intros [|[|[|t]]] Ht; [reflexivity .. | lia].
    + rewrite Hnil; [reflexivity |]. by intros [_ Hphase].
  - pose proof (proj2 (Shutdown_spec Sample.stuckEnv 5 Sample.deployed)
                  0 2 (Sample.pod "run-a" apiv1.PodRunning)
                  eq_refl eq_refl eq_refl) as Hspec.
    destruct Hspec as [_ Htimeout]; [| reflexivity | lia |].
    + apply Hrounds; [reflexivity |].
      intros [|[|k]] Hk; [reflexivity .. | lia].
    + rewrite Htimeout; [reflexivity | | reflexivity].
      split; [reflexivity | discriminate].
Defined.

(** C2 as worded fails on the code twice over. When the pod is gone
    from the API, so that every get answers not-found, [Shutdown] returns
    that error, not nil. And when the pod is still in the API, in phase
    Failed, [Shutdown] returns nil after a single get. *)
Lemma Shutdown_success_is_not_absence :
  (∀ t, env_get Sample.goneEnv t = inr (StatusNotFound "pods" "external-check"))
  ∧ valueOf (Shutdown Sample.goneEnv 5 Sample.deployed)
    = Some (Some (StatusNotFound "pods" "external-check"))
  ∧ (∀ t, env_get Sample.failedPodEnv t = inl (Sample.pod "run-a" apiv1.PodFailed))
  ∧ valueOf (Shutdown Sample.failedPodEnv 5 Sample.deployed) = Some None
  ∧ List.filter isGet
      (st_trace (stateOf (Shutdown Sample.failedPodEnv 5 Sample.deployed)))
    = [AGet "kh" "external-check"].
Proof.
  repeat split; intros; vm_compute; reflexivity.
Qed.

(** ** The periodic driver *)

(** No step of an iteration writes the error buffer: [execute] returns
    its error and leaves the buffer to its caller. *)
Lemma execute_keeps_ErrorMessages (E : Env) (client : option Clientset) (s : State) :
  ErrorMessages (st_ext (stateOf (execute E client s))) = ErrorMessages (st_ext s).
Proof.
  unfold execute, waitForPodRunning, waitForPodExit, configureUserPodSpecM,
    configureUserPodSpec, preparePod.
  run.
  repeat (case_match; simpl; simplify_eq; try reflexivity).
Qed.

Lemma iteration_buffer (E : Env) (client : option Clientset) (s : State) :
  let slept :=
    stateOf ((if negb (Debug (st_ext s)) then Sleep (Interval (st_ext s))
              else ret tt) s) in
  match valueOf (execute E client slept) with
  | Some (Some e) =>
      ErrorMessages (st_ext (stateOf (iteration E client s))) = [Error e]
  | Some None =>
      ErrorMessages (st_ext (stateOf (iteration E client s)))
      = ErrorMessages (st_ext s)
  | None => True
  end.
Proof.
  intros slept.
  pose proof (execute_keeps_ErrorMessages E client slept) as Hkeep.
  assert (Hslept : ErrorMessages (st_ext slept) = ErrorMessages (st_ext s)).
  { unfold slept. by destruct (negb _). }
  assert (Hrun : iteration E client s
                 = (err <- execute E client ;;
                    match err with
                    | Some e => update (fun ext => setError ext (Error e))
                    | None => ret tt
                    end) slept).
  { unfold iteration, slept. unfold bind at 1, this. unfold bind at 1.
    by destruct (negb _). }
  rewrite Hrun. unfold bind.
  destruct (execute E client slept) as [[e|] s' | s' | s'];
    simpl in Hkeep |- *; [done | by rewrite Hkeep | done | done].
Qed.

(** C1, at a failure followed by a success. The first iteration fails
    on the delete and the buffer holds its message; the second iteration
    runs through and [execute] returns nil; after the two iterations of
    [Run] the buffer still holds the message of the first, and the status
    query still answers Failing with it. *)
Theorem Run_keeps_stale_failure :
  let client := Some 0 in
  let msg :=
    "failed to clean up pods before starting external checker: connection refused" in
  let first := stateOf (iteration Sample.flakyEnv client Sample.start) in
  let slept := stateOf (Sleep (Interval (st_ext first)) first) in
  let second := stateOf (iteration Sample.flakyEnv client first) in
  ErrorMessages (st_ext Sample.start) = []
  ∧ CurrentStatus (st_ext first) = (false, [msg])
  ∧ valueOf (execute Sample.flakyEnv client slept) = Some None
  ∧ Run Sample.flakyEnv 2 client Sample.start = OutOfFuel second
  ∧ ErrorMessages (st_ext second) = [msg]
  ∧ CurrentStatus (st_ext second) = (false, [msg]).
Proof.
  vm_compute. repeat split; reflexivity.
Qed.

(** ** The startup watcher *)

Lemma runningOrFailed_iff (phase : apiv1.PodPhase) :
  runningOrFailed phase = true ↔ phase = "Running" ∨ phase = "Failed".
Proof.
  unfold runningOrFailed. by rewrite orb_true_iff, !String.eqb_eq.
Qed.

Section DrainEvents.
Variables (target : apiv1.PodPhase → bool) (aborted uuid : string).
Variable ctx : Context.

Lemma drainEvents_not_a_pod (looks : nat) (e : watch.Event)
    (rest : list watch.Event) :
  watch.Object_ e = watch.OtherObject →
  drainEvents target aborted uuid ctx looks (e :: rest)
  = drainEvents target aborted uuid ctx looks rest.
Proof. intros He. simpl. by rewrite He. Qed.

Lemma drainEvents_other_run (looks : nat) (e : watch.Event) (p : apiv1.Pod)
    (rest : list watch.Event) :
  watch.Object_ e = watch.PodObject p →
  apiv1.label p kuberhealthyRunIDLabel ≠ uuid →
  drainEvents target aborted uuid ctx looks (e :: rest)
  = drainEvents target aborted uuid ctx looks rest.
Proof.
  intros He Hlabel. simpl. rewrite He.
  apply String.eqb_neq in Hlabel. by rewrite Hlabel.
Qed.

Lemma drainEvents_target (looks : nat) (e : watch.Event) (p : apiv1.Pod)
    (rest : list watch.Event) :
  watch.Object_ e = watch.PodObject p →
  apiv1.label p kuberhealthyRunIDLabel = uuid →
  target (apiv1.Phase (apiv1.Status p)) = true →
  drainEvents target aborted uuid ctx looks (e :: rest) = None.
Proof.
  intros He Hlabel Hphase. simpl. rewrite He.
  apply String.eqb_eq in Hlabel. by rewrite Hlabel, Hphase.
Qed.

Lemma drainEvents_aborted (looks : nat) (e : watch.Event) (p : apiv1.Pod)
    (rest : list watch.Event) :
  watch.Object_ e = watch.PodObject p →
  apiv1.label p kuberhealthyRunIDLabel = uuid →
  target (apiv1.Phase (apiv1.Status p)) = false →
  ctx looks = true →
  drainEvents target aborted uuid ctx looks (e :: rest)
  = Some (errorString aborted).
Proof.
  intros He Hlabel Hphase Hctx. simpl. rewrite He.
  apply String.eqb_eq in Hlabel. by rewrite Hlabel, Hphase, Hctx.
Qed.

(** The stream ends with no pod of this run seen in an awaited phase,
    and the context never done. *)
Lemma drainEvents_premature_close (events : list watch.Event) :
  (∀ e p, e ∈ events → watch.Object_ e = watch.PodObject p →
          apiv1.label p kuberhealthyRunIDLabel = uuid →
          target (apiv1.Phase (apiv1.Status p)) = false) →
  (∀ k, ctx k = false) →
  ∀ looks,
    drainEvents target aborted uuid ctx looks events
    = Some (errorString "external checker watch aborted pre-maturely").
Proof.
  intros Hnone Hctx.
  induction events as [|e rest IH]; intros looks; [done |].
  simpl.
  assert (Hrest : ∀ looks',
            drainEvents target aborted uuid ctx looks' rest
            = Some (errorString "external checker watch aborted pre-maturely")).
  { apply IH. intros e' p' Hin. apply Hnone. by right. }
  destruct (watch.Object_ e) as [p|] eqn:He; [| apply Hrest].
  destruct (String.eqb (apiv1.label p kuberhealthyRunIDLabel) uuid) eqn:Hlabel;
    simpl; [| apply Hrest].
  apply String.eqb_eq in Hlabel.
  rewrite (Hnone e p) by (done || by left).
  rewrite Hctx. apply Hrest.
Qed.
End DrainEvents.

Lemma waitForPodRunning_run (E : Env) (ctx : Context) (s : State) (c : Clientset) :
  kubeClient (st_ext s) = Some c →
  waitForPodRunning E ctx s
  = Returned
      match env_watch E (st_tick s) with
      | inr err => Some err
      | inl events =>
          drainEvents runningOrFailed "external checker pod startup watch aborted"
            (currentCheckUUID (st_ext s)) ctx 0 events
      end
      (mkState (st_ext s)
         (st_trace s
          ++ [AWatch (Namespace (st_ext s))
                     ("kuberhealthy-run-id=" +:+ currentCheckUUID (st_ext s))])
         (S (st_tick s))).
Proof.
  intros Hc. unfold waitForPodRunning. run. rewrite Hc. simpl.
  by destruct (env_watch E (st_tick s)).
Qed.

(** *** Running [execute] step by step *)

Lemma bind_returned {A B} (m : M A) (k : A → M B) (s s' : State) (a : A) :
  m s = Returned a s' → bind m k s = k a s'.
Proof. intros Hm. unfold bind. by rewrite Hm. Qed.

Lemma bind_ext {A B} (m : M A) (k1 k2 : A → M B) (s : State) :
  (∀ a s', k1 a s' = k2 a s') → bind m k1 s = bind m k2 s.
Proof. intros Hk. unfold bind. by destruct (m s). Qed.

Lemma orReturn_nil (m : M (option error)) (wrap : error → option error)
    (k : M (option error)) (s s' : State) :
  m s = Returned None s' → orReturn m wrap k s = k s'.
Proof. intros Hm. unfold orReturn. by rewrite (bind_returned _ _ _ _ _ Hm). Qed.

Lemma orReturn_error (m : M (option error)) (wrap : error → option error)
    (k : M (option error)) (s s' : State) (e : error) :
  m s = Returned (Some e) s' → orReturn m wrap k s = Returned (wrap e) s'.
Proof. intros Hm. unfold orReturn. by rewrite (bind_returned _ _ _ _ _ Hm). Qed.

Lemma orReturn_ext (m : M (option error)) (wrap : error → option error)
    (k1 k2 : M (option error)) (s : State) :
  (∀ s', k1 s' = k2 s') → orReturn m wrap k1 s = orReturn m wrap k2 s.
Proof.
  intros Hk. unfold orReturn. apply bind_ext. intros [e|] s'; [done | apply Hk].
Qed.

(** A watcher whose value is dropped only leaves its watch in the
    trace. *)
Lemma waitForPodRunning_dropped {B} (E : Env) (ctx : Context) (k : M B) (s : State) :
  (_ <- waitForPodRunning E ctx ;; k) s
  = match kubeClient (st_ext s) with
    | None => Panicked s
    | Some _ =>
        k (mkState (st_ext s)
             (st_trace s
              ++ [AWatch (Namespace (st_ext s))
                         ("kuberhealthy-run-id=" +:+ currentCheckUUID (st_ext s))])
             (S (st_tick s)))
    end.
Proof.
  unfold waitForPodRunning. run.
  destruct (kubeClient (st_ext s)); [| done]. simpl.
  by destruct (env_watch E (st_tick s)).
Qed.

Lemma waitForPodExit_dropped {B} (E : Env) (ctx : Context) (k : M B) (s : State) :
  (_ <- waitForPodExit E ctx ;; k) s
  = match kubeClient (st_ext s) with
    | None => Panicked s
    | Some _ =>
        k (mkState (st_ext s)
             (st_trace s
              ++ [AWatch (Namespace (st_ext s))
                         ("kuberhealthy-run-id=" +:+ currentCheckUUID (st_ext s))])
             (S (st_tick s)))
    end.
Proof.
  unfold waitForPodExit. run.
  destruct (kubeClient (st_ext s)); [| done]. simpl.
  by destruct (env_watch E (st_tick s)).
Qed.

(** What [execute] returns and the state it leaves do not depend on
    the watches: whatever a watcher puts on its channel is received and
    dropped. *)
Lemma execute_ignores_watchers (E : Env) (w : nat → list watch.Event + error)
    (client : option Clientset) (s : State) :
  execute (withWatch E w) client s = execute E client s.
Proof.
  unfold execute.
  apply bind_ext; intros _ s1.
  do 5 (apply orReturn_ext; intros ?).
  apply bind_ext; intros [created | err] s2; [| done].
  rewrite !waitForPodRunning_dropped.
  destruct (kubeClient (st_ext s2)); [| done].
  apply bind_ext; intros [|] s3; [done |].
  apply bind_ext; intros _ s4.
  rewrite !waitForPodExit_dropped.
  by destruct (kubeClient (st_ext s4)).
Qed.

Lemma sanityCheck_setPodSpec (ext : Checker) (spec : option apiv1.PodSpec) :
  sanityCheck (setPodSpec ext spec) = sanityCheck ext.
Proof. reflexivity. Qed.

(** An iteration that gets as far as having its pod created: the pod
    spec is valid, the checker is sane, the strays are deleted and the
    create succeeds. From there on [execute] is decided by the two
    selects alone. *)
Section ExecuteCreated.
Variables (E : Env) (c : Clientset) (s : State).
Variables (spec : apiv1.PodSpec) (pod created : apiv1.Pod).

Let ext0 : Checker := minted E (Some c) s.
Let ext1 : Checker := setPodSpec ext0 (Some (decoratedSpec ext0 spec)).
Let t : nat := st_tick s.
Let ns : string := Namespace (st_ext s).
Let upToWatch : list Action :=
  st_trace s
  ++ [ ADeleteCollection ns (checkSelector (st_ext s));
       ACreate ns pod;
       AWatch ns ("kuberhealthy-run-id=" +:+ env_uuid E t) ].

Hypothesis Hspec : PodSpec (st_ext s) = Some spec.
Hypothesis Hvalid : validatePodSpec ext0 = None.
Hypothesis Hsane : sanityCheck ext0 = None.
Hypothesis Hstrays : env_deleteCollection E (t + 1) = None.
Hypothesis Hpod : preparePod ext1 = Some pod.
Hypothesis Hcreate : env_create E (t + 2) pod = inl created.

Lemma execute_created :
  execute E (Some c) s
  = if timerCase E (t + 4) then
      Returned
        (errors.New
           (timeoutMessage "failed to see pod running within timeout"
              " and an error occurred when deleting the pod:"
              (env_deleteCollection E (t + 5))))
        (mkState ext1
           (upToWatch ++ [ACancel; ADeleteCollection ns (checkSelector (st_ext s))])
           (t + 6))
    else if timerCase E (t + 6) then
      Returned
        (errors.New
           (timeoutMessage "pod ran too long and was shut down"
              " but an error occurred when deleting the pod:"
              (env_deleteCollection E (t + 7))))
        (mkState (setPodDeployedField ext1 true)
           (upToWatch
            ++ [ AWatch ns ("kuberhealthy-run-id=" +:+ env_uuid E t);
                 ACancel;
                 ADeleteCollection ns (checkSelector (st_ext s)) ])
           (t + 8))
    else
      Returned None
        (mkState (setPodDeployedField ext1 true)
           (upToWatch ++ [AWatch ns ("kuberhealthy-run-id=" +:+ env_uuid E t)])
           (t + 7)).
Proof.
  assert (Hclient : kubeClient ext1 = Some c) by reflexivity.
  replace (t + 1) with (S t) in Hstrays by lia.
  replace (t + 2) with (S (S t)) in Hcreate by lia.
  replace (t + 4) with (S (S (S (S t)))) by lia.
  replace (t + 5) with (S (S (S (S (S t))))) by lia.
  replace (t + 6) with (S (S (S (S (S (S t)))))) by lia.
  replace (t + 7) with (S (S (S (S (S (S (S t))))))) by lia.
  replace (t + 8) with (S (S (S (S (S (S (S (S t)))))))) by lia.
  unfold execute.
  erewrite bind_returned by reflexivity.
  erewrite orReturn_nil by reflexivity.
  cbn [st_ext st_trace st_tick].
  change (setCurrentCheckUUID (setKubeClient (st_ext s) (Some c))
            (env_uuid E (st_tick s))) with ext0.
  erewrite orReturn_nil; cycle 1.
  { unfold bind, this, ret. cbn [st_ext]. by rewrite Hvalid. }
  erewrite orReturn_nil; cycle 1.
  { unfold configureUserPodSpecM. cbn [st_ext st_trace st_tick].
    erewrite configureUserPodSpec_eq by exact Hspec. reflexivity. }
  fold ext1.
  erewrite orReturn_nil; cycle 1.
  { unfold bind, this, ret. cbn [st_ext]. unfold ext1.
    by rewrite sanityCheck_setPodSpec, Hsane. }
  erewrite orReturn_nil; cycle 1.
  { rewrite (deletePod_run E _ c) by exact Hclient.
    cbn [st_ext st_trace st_tick]. fold t. by rewrite Hstrays. }
  erewrite bind_returned; cycle 1.
  { unfold createPod. unfold bind at 1, this. cbn [st_ext]. fold ext1.
    rewrite Hpod. run. rewrite Hcreate. reflexivity. }
  fold ext1. cbv beta iota.
  rewrite waitForPodRunning_dropped. cbn [st_ext st_trace st_tick].
  rewrite Hclient.
  unfold selectTimer. unfold bind at 1, ask at 1. cbn [st_ext st_trace st_tick].
  fold (timerCase E (S (S (S (S t))))).
  destruct (timerCase E (S (S (S (S t))))).
  - unfold bind at 1, act at 1. cbn [st_ext st_trace st_tick].
    unfold bind at 1. rewrite (deletePod_run E _ c) by exact Hclient.
    cbn [st_ext st_trace st_tick]. unfold ret, timeoutMessage, errors.New.
    unfold upToWatch. rewrite <- !app_assoc. reflexivity.
  - unfold bind at 1, setPodDeployed, update at 1. cbn [st_ext st_trace st_tick].
    rewrite waitForPodExit_dropped. cbn [st_ext st_trace st_tick].
    change (kubeClient (setPodDeployedField ext1 true)) with (kubeClient ext1).
    rewrite Hclient.
    unfold bind at 1, ask at 1. cbn [st_ext st_trace st_tick].
    fold (timerCase E (S (S (S (S (S (S t))))))).
    destruct (timerCase E (S (S (S (S (S (S t))))))).
    + unfold bind at 1, act at 1. cbn [st_ext st_trace st_tick].
      unfold bind at 1.
      rewrite (deletePod_run E _ c) by exact Hclient.
      cbn [st_ext st_trace st_tick]. unfold ret, timeoutMessage, errors.New.
      unfold upToWatch. rewrite <- !app_assoc. reflexivity.
    + unfold ret, upToWatch. rewrite <- !app_assoc. reflexivity.
Qed.
End ExecuteCreated.

(** When the select runs the timer's case, the engine cancels the watch
    context, sends a second delete by selector and returns the time-out
    message, with the error of that delete behind it if it failed. *)
Lemma execute_startup_timer_case (E : Env) (c : Clientset) (s : State)
    (spec : apiv1.PodSpec) (pod created : apiv1.Pod) :
  let ext0 := minted E (Some c) s in
  let ext1 := setPodSpec ext0 (Some (decoratedSpec ext0 spec)) in
  PodSpec (st_ext s) = Some spec →
  validatePodSpec ext0 = None →
  sanityCheck ext0 = None →
  env_deleteCollection E (st_tick s + 1) = None →
  preparePod ext1 = Some pod →
  env_create E (st_tick s + 2) pod = inl created →
  timerCase E (st_tick s + 4) = true →
  valueOf (execute E (Some c) s)
  = Some (Some (errorString
       match env_deleteCollection E (st_tick s + 5) with
       | Some e => "failed to see pod running within timeout"
                   +:+ " and an error occurred when deleting the pod:"
                   +:+ Error e
       | None => "failed to see pod running within timeout"
       end))
  ∧ st_trace (stateOf (execute E (Some c) s))
    = st_trace s
      ++ [ ADeleteCollection (Namespace (st_ext s)) (checkSelector (st_ext s));
           ACreate (Namespace (st_ext s)) pod;
           AWatch (Namespace (st_ext s))
                  ("kuberhealthy-run-id=" +:+ env_uuid E (st_tick s));
           ACancel;
           ADeleteCollection (Namespace (st_ext s)) (checkSelector (st_ext s)) ]
  ∧ PodDeployed (st_ext (stateOf (execute E (Some c) s))) = PodDeployed (st_ext s).
Proof.
  intros ext0 ext1 Hspec Hvalid Hsane Hstrays Hpod Hcreate Htimer.
  rewrite (execute_created E c s spec pod created) by done.
  rewrite Htimer. cbn [valueOf stateOf st_trace st_ext].
  split; [reflexivity |]. split; [| reflexivity].
  by rewrite <- app_assoc.
Qed.

(** The timer having fired is not enough: if the run-time picks the
    watcher's case at the first select and no timer's case runs at the
    second, the iteration ends with nil, the pod flagged as deployed, no
    cancel and no delete after the create. *)
Lemma execute_startup_timer_not_picked (E : Env) (c : Clientset) (s : State)
    (spec : apiv1.PodSpec) (pod created : apiv1.Pod) :
  let ext0 := minted E (Some c) s in
  let ext1 := setPodSpec ext0 (Some (decoratedSpec ext0 spec)) in
  PodSpec (st_ext s) = Some spec →
  validatePodSpec ext0 = None →
  sanityCheck ext0 = None →
  env_deleteCollection E (st_tick s + 1) = None →
  preparePod ext1 = Some pod →
  env_create E (st_tick s + 2) pod = inl created →
  env_timerFired E (st_tick s + 4) = true →
  env_pickTimer E (st_tick s + 4) = false →
  timerCase E (st_tick s + 6) = false →
  valueOf (execute E (Some c) s) = Some None
  ∧ st_trace (stateOf (execute E (Some c) s))
    = st_trace s
      ++ [ ADeleteCollection (Namespace (st_ext s)) (checkSelector (st_ext s));
           ACreate (Namespace (st_ext s)) pod;
           AWatch (Namespace (st_ext s))
                  ("kuberhealthy-run-id=" +:+ env_uuid E (st_tick s));
           AWatch (Namespace (st_ext s))
                  ("kuberhealthy-run-id=" +:+ env_uuid E (st_tick s)) ]
  ∧ PodDeployed (st_ext (stateOf (execute E (Some c) s))) = true.
Proof.
  intros ext0 ext1 Hspec Hvalid Hsane Hstrays Hpod Hcreate Hfired Hpick Hrun.
  rewrite (execute_created E c s spec pod created) by done.
  assert (Hcase : timerCase E (st_tick s + 4) = false).
  { unfold timerCase. by rewrite Hfired, Hpick. }
  rewrite Hcase, Hrun.
  cbn [valueOf stateOf st_trace st_ext].
  split; [reflexivity |]. split; [| reflexivity].
  by rewrite <- app_assoc.
Qed.

(** C6, at a start-up that outlasts its timer. The pod is still Pending
    when the watch ends, so the watcher signals an error, and the timer
    has fired by then; the watcher having run to its end before the
    select is entered, both cases are ready, and when the run-time takes
    the watcher's the engine cancels nothing, deletes nothing after the
    create, flags the pod as deployed and the iteration ends without an
    error. Only when the run-time takes the timer's case does the
    iteration abort with the time-out message. *)
Theorem execute_startup_timer_fired_no_abort :
  let E := Sample.slowStartEnv false in
  let client := Some 0 in
  let run := execute E client Sample.start in
  env_timerFired E 4 = true
  ∧ env_watch E 3 = inl [Sample.event (Sample.pod "run-a" apiv1.PodPending)]
  ∧ drainEvents runningOrFailed "external checker pod startup watch aborted"
      "run-a" watchContext 0
      [Sample.event (Sample.pod "run-a" apiv1.PodPending)]
    = Some (errorString "external checker watch aborted pre-maturely")
  ∧ valueOf run = Some None
  ∧ PodDeployed (st_ext (stateOf run)) = true
  ∧ List.filter isCancel (st_trace (stateOf run)) = []
  ∧ List.filter isDeleteCollection (st_trace (stateOf run))
    = [ADeleteCollection "kh" "kuberhealthy-check-name=external-check"]
  ∧ CurrentStatus (st_ext (stateOf (iteration E client Sample.start))) = (true, [])
  ∧ valueOf (execute (Sample.slowStartEnv true) client Sample.start)
    = Some (Some (errorString "failed to see pod running within timeout")).
Proof.
  vm_compute. repeat split; reflexivity.
Qed.

(** C3, at a watch that closes after no event. The watcher signals the
    premature-close error, but [execute] receives it and drops it: the
    iteration goes on as if the pod were running, flags it as deployed,
    and ends with nil; the status stays OK. *)
Theorem execute_drops_premature_close :
  let E := Sample.quietEnv in
  let client := Some 0 in
  let run := execute E client Sample.start in
  (∀ t, env_watch E t = inl [])
  ∧ valueOf (waitForPodRunning E watchContext Sample.idle)
    = Some (Some (errorString "external checker watch aborted pre-maturely"))
  ∧ valueOf run = Some None
  ∧ PodDeployed (st_ext (stateOf run)) = true
  ∧ CurrentStatus (st_ext (stateOf (iteration E client Sample.start))) = (true, []).
Proof.
  vm_compute. repeat split; reflexivity.
Qed.

(** * Further properties of the checker *)

(** ** Every path of an iteration *)

Lemma preparePod_builtPod (ext : Checker) (spec : apiv1.PodSpec) :
  PodSpec ext = Some spec → preparePod ext = Some (builtPod ext spec).
Proof. intros Hspec. unfold preparePod. by rewrite Hspec. Qed.

Lemma sanityCheck_client (ext : Checker) :
  sanityCheck ext = None → ∃ c, kubeClient ext = Some c.
Proof.
  unfold sanityCheck.
  destruct (String.eqb (Namespace ext) ""); [done |].
  destruct (String.eqb (PodName ext) ""); [done |].
  destruct (kubeClient ext) as [c|]; [eauto | done].
Qed.

(** [execute] returns, with the error, the checker, the actions and the
    number of questions of the path it takes. *)
Lemma execute_path (E : Env) (client : option Clientset) (s : State) :
  let ext0 := minted E client s in
  let spec := default apiv1.zeroPodSpec (PodSpec ext0) in
  let ext1 := setPodSpec ext0 (Some (decoratedSpec ext0 spec)) in
  let p := pathOf E client s in
  execute E client s
  = Returned (pathError p)
      (mkState (pathChecker ext0 p)
         (st_trace s ++ pathActions ext0 (builtPod ext1 (decoratedSpec ext0 spec)) p)
         (st_tick s + pathTicks p)).
Proof.
  intros ext0 spec ext1 p. unfold p, pathOf. fold ext0.
  destruct (validatePodSpec ext0) as [e|] eqn:Hvalid.
  { unfold execute.
    erewrite bind_returned by reflexivity.
    erewrite orReturn_nil by reflexivity.
    cbn [st_ext st_trace st_tick].
    change (setCurrentCheckUUID (setKubeClient (st_ext s) client)
              (env_uuid E (st_tick s))) with ext0.
    erewrite orReturn_error; cycle 1.
    { unfold bind, this, ret. cbn [st_ext]. by rewrite Hvalid. }
    cbn [pathError pathChecker pathActions pathTicks st_ext st_trace st_tick].
    rewrite app_nil_r. f_equal. f_equal. lia. }
  destruct (proj1 (validatePodSpec_ok ext0) Hvalid) as (spec0 & Hspec0 & _).
  assert (Hspec : PodSpec (st_ext s) = Some spec0) by exact Hspec0.
  assert (Hdef : spec = spec0) by (unfold spec; by rewrite Hspec0).
  destruct (sanityCheck ext0) as [e|] eqn:Hsane.
  { unfold execute.
    erewrite bind_returned by reflexivity.
    erewrite orReturn_nil by reflexivity.
    cbn [st_ext st_trace st_tick].
    change (setCurrentCheckUUID (setKubeClient (st_ext s) client)
              (env_uuid E (st_tick s))) with ext0.
    erewrite orReturn_nil; cycle 1.
    { unfold bind, this, ret. cbn [st_ext]. by rewrite Hvalid. }
    erewrite orReturn_nil; cycle 1.
    { unfold configureUserPodSpecM. cbn [st_ext st_trace st_tick].
      erewrite configureUserPodSpec_eq by exact Hspec0. reflexivity. }
    erewrite orReturn_error; cycle 1.
    { unfold bind, this, ret. cbn [st_ext].
      by rewrite sanityCheck_setPodSpec, Hsane. }
    cbn [pathError pathChecker pathActions pathTicks]. rewrite app_nil_r.
    fold spec. rewrite Hdef. f_equal. f_equal. lia. }
  destruct (sanityCheck_client ext0 Hsane) as [c Hc].
  assert (Hclient : client = Some c) by exact Hc. subst client.
  destruct (env_deleteCollection E (st_tick s + 1)) as [e|] eqn:Hstrays.
  { replace (st_tick s + 1) with (S (st_tick s)) in Hstrays by lia.
    unfold execute.
    erewrite bind_returned by reflexivity.
    erewrite orReturn_nil by reflexivity.
    cbn [st_ext st_trace st_tick].
    change (setCurrentCheckUUID (setKubeClient (st_ext s) (Some c))
              (env_uuid E (st_tick s))) with ext0.
    erewrite orReturn_nil; cycle 1.
    { unfold bind, this, ret. cbn [st_ext]. by rewrite Hvalid. }
    erewrite orReturn_nil; cycle 1.
    { unfold configureUserPodSpecM. cbn [st_ext st_trace st_tick].
      erewrite configureUserPodSpec_eq by exact Hspec0. reflexivity. }
    erewrite orReturn_nil; cycle 1.
    { unfold bind, this, ret. cbn [st_ext].
      by rewrite sanityCheck_setPodSpec, Hsane. }
    erewrite orReturn_error; cycle 1.
    { rewrite (deletePod_run E _ c) by exact Hc.
      cbn [st_ext st_trace st_tick]. by rewrite Hstrays. }
    cbn [pathError pathChecker pathActions pathTicks].
    fold spec. rewrite Hdef. f_equal. f_equal. lia. }
  fold spec. fold ext1.
  assert (Hpod : preparePod ext1 = Some (builtPod ext1 (decoratedSpec ext0 spec)))
    by (by apply preparePod_builtPod).
  destruct (env_create E (st_tick s + 2) (builtPod ext1 (decoratedSpec ext0 spec)))
    as [created | e] eqn:Hcreate.
  - rewrite (execute_created E c s spec0 (builtPod ext1 (decoratedSpec ext0 spec))
               created Hspec Hvalid Hsane Hstrays);
      [| rewrite <- Hdef; exact Hpod | done].
    fold ext0. rewrite <- Hdef. fold ext1.
    destruct (timerCase E (st_tick s + 4)).
    { cbn [pathError pathChecker pathActions pathTicks].
      fold spec. fold ext1. by rewrite <- app_assoc. }
    destruct (timerCase E (st_tick s + 6)).
    { cbn [pathError pathChecker pathActions pathTicks].
      fold spec. fold ext1. by rewrite <- app_assoc. }
    cbn [pathError pathChecker pathActions pathTicks].
    fold spec. fold ext1. by rewrite <- app_assoc.
  - replace (st_tick s + 1) with (S (st_tick s)) in Hstrays by lia.
    replace (st_tick s + 2) with (S (S (st_tick s))) in Hcreate by lia.
    unfold execute.
    erewrite bind_returned by reflexivity.
    erewrite orReturn_nil by reflexivity.
    cbn [st_ext st_trace st_tick].
    change (setCurrentCheckUUID (setKubeClient (st_ext s) (Some c))
              (env_uuid E (st_tick s))) with ext0.
    erewrite orReturn_nil; cycle 1.
    { unfold bind, this, ret. cbn [st_ext]. by rewrite Hvalid. }
    erewrite orReturn_nil; cycle 1.
    { unfold configureUserPodSpecM. cbn [st_ext st_trace st_tick].
      erewrite configureUserPodSpec_eq by exact Hspec0. reflexivity. }
    rewrite <- Hdef. fold ext1.
    erewrite orReturn_nil; cycle 1.
    { unfold bind, this, ret. cbn [st_ext]. unfold ext1.
      by rewrite sanityCheck_setPodSpec, Hsane. }
    erewrite orReturn_nil; cycle 1.
    { rewrite (deletePod_run E _ c) by exact Hc.
      cbn [st_ext st_trace st_tick]. by rewrite Hstrays. }
    erewrite bind_returned; cycle 1.
    { unfold createPod. unfold bind at 1, this. cbn [st_ext]. fold ext1.
      rewrite Hpod. run. rewrite Hcreate. reflexivity. }
    cbv beta iota. unfold ret.
    cbn [pathError pathChecker pathActions pathTicks].
    fold spec. fold ext1. rewrite <- app_assoc. f_equal. f_equal. lia.
Qed.

Lemma pathOf_eq (E : Env) (client : option Clientset) (s : State) :
  pathOf E client s
  = match validatePodSpec (st_ext s) with
    | Some e => InvalidSpec e
    | None =>
        match sanityCheck (setKubeClient (st_ext s) client) with
        | Some e => SanityViolation e
        | None =>
            match env_deleteCollection E (st_tick s + 1) with
            | Some e => StraysNotDeleted e
            | None =>
                let ext0 := minted E client s in
                let spec := default apiv1.zeroPodSpec (PodSpec (st_ext s)) in
                let ext1 := setPodSpec ext0 (Some (decoratedSpec ext0 spec)) in
                match env_create E (st_tick s + 2)
                        (builtPod ext1 (decoratedSpec ext0 spec)) with
                | inr e => NotCreated e
                | inl _ =>
                    if timerCase E (st_tick s + 4)
                    then StartupTimeout (env_deleteCollection E (st_tick s + 5))
                    else if timerCase E (st_tick s + 6)
                    then RunTimeout (env_deleteCollection E (st_tick s + 7))
                    else Done
                end
            end
        end
    end.
Proof. reflexivity. Qed.

(** ** What an iteration never does, and what it leaves alone *)

(** X1. No iteration panics, whatever the state and the cluster, a nil
    client included: the validation of the pod spec and the sanity
    check stand before every dereference of the pod spec and of the
    client. The calls they guard do panic on a nil client: the delete,
    the create and both watchers. Whether an iteration returns is a
    matter of its watches and is not said here. *)
Theorem execute_never_panics (E : Env) (client : option Clientset) (s : State) :
  panics (execute E client s) = false
  ∧ let nilled := mkState (setKubeClient (st_ext s) None) (st_trace s) (st_tick s) in
    panics (deletePod E nilled) = true
    ∧ panics (createPod E nilled) = true
    ∧ panics (waitForPodRunning E watchContext nilled) = true
    ∧ panics (waitForPodExit E watchContext nilled) = true.
Proof.
  split; [by rewrite execute_path |].
  cbn zeta. split; [done |]. split; [| by split].
  unfold createPod, bind at 1, this. cbn [st_ext].
  by destruct (preparePod _).
Qed.

(** X2. Beside the client and the run id it stores, an iteration writes
    at most two fields of the checker: the pod spec and the pod-deployed
    flag. The check name, namespace, pod name, the three durations, the
    reporting URL, the debug flag, the error buffer and the field
    [RunID] are what they were; the client is the one passed in and
    [currentCheckUUID] the identifier just minted. [RunID] is never
    written. *)
Theorem execute_frame (E : Env) (client : option Clientset) (s : State) :
  let ext := st_ext s in
  let ext' := st_ext (stateOf (execute E client s)) in
  CheckName ext' = CheckName ext
  ∧ Namespace ext' = Namespace ext
  ∧ PodName ext' = PodName ext
  ∧ RunID ext' = RunID ext
  ∧ RunInterval ext' = RunInterval ext
  ∧ maxRunTime ext' = maxRunTime ext
  ∧ startupTimeout ext' = startupTimeout ext
  ∧ KuberhealthyReportingURL ext' = KuberhealthyReportingURL ext
  ∧ Debug ext' = Debug ext
  ∧ ErrorMessages ext' = ErrorMessages ext
  ∧ kubeClient ext' = client
  ∧ currentCheckUUID ext' = env_uuid E (st_tick s).
Proof.
  intros ext ext'. unfold ext'. rewrite execute_path.
  cbn [stateOf st_ext].
  by destruct (pathOf E client s).
Qed.

(** ** The ways an iteration fails *)

(** X3. With a pod spec that does not pass validation, the iteration
    returns the validation error as it is, and asks nothing of the
    cluster: no delete, no create, no watch. It has by then stored the
    client and minted a new run id. *)
Theorem execute_invalid_spec (E : Env) (client : option Clientset) (s : State)
    (e : error) :
  validatePodSpec (st_ext s) = Some e →
  execute E client s
  = Returned (Some e)
      (mkState (setCurrentCheckUUID (setKubeClient (st_ext s) client)
                  (env_uuid E (st_tick s)))
               (st_trace s) (S (st_tick s))).
Proof.
  intros Hinvalid. rewrite execute_path, pathOf_eq, Hinvalid.
  cbn [pathError pathChecker pathActions pathTicks].
  rewrite app_nil_r. f_equal. f_equal. lia.
Qed.

(** X4. The sanity check comes after the decoration: with a valid pod
    spec but an empty namespace, an empty pod name or a nil client, the
    iteration returns the error of the sanity check and asks nothing of
    the cluster, but the pod spec of the checker has already been
    decorated. *)
Theorem execute_sanity_violation (E : Env) (client : option Clientset) (s : State)
    (e : error) :
  validatePodSpec (st_ext s) = None →
  sanityCheck (setKubeClient (st_ext s) client) = Some e →
  ∃ spec,
    PodSpec (st_ext s) = Some spec
    ∧ execute E client s
      = Returned (Some e)
          (mkState (setPodSpec (minted E client s)
                      (Some (decoratedSpec (minted E client s) spec)))
                   (st_trace s) (S (st_tick s))).
Proof.
  intros Hvalid Hsane.
  destruct (proj1 (validatePodSpec_ok _) Hvalid) as (spec & Hspec & _).
  exists spec. split; [done |].
  rewrite execute_path, pathOf_eq, Hvalid, Hsane.
  cbn [pathError pathChecker pathActions pathTicks].
  change (PodSpec (minted E client s)) with (PodSpec (st_ext s)).
  rewrite Hspec, app_nil_r. cbn [default from_option]. f_equal. f_equal. lia.
Qed.

(** X5. When the delete of the stray pods fails, the iteration returns
    the error of the API behind the words failed to clean up pods before
    starting external checker, and creates no pod: the delete is the
    only thing it has asked of the cluster. *)
Theorem execute_strays_not_deleted (E : Env) (client : option Clientset)
    (s : State) (e : error) :
  validatePodSpec (st_ext s) = None →
  sanityCheck (setKubeClient (st_ext s) client) = None →
  env_deleteCollection E (st_tick s + 1) = Some e →
  valueOf (execute E client s)
  = Some (Some (errorString
       ("failed to clean up pods before starting external checker: " +:+ Error e)))
  ∧ st_trace (stateOf (execute E client s))
    = st_trace s
      ++ [ADeleteCollection (Namespace (st_ext s))
            ("kuberhealthy-check-name=" +:+ CheckName (st_ext s))]
  ∧ PodDeployed (st_ext (stateOf (execute E client s))) = PodDeployed (st_ext s).
Proof.
  intros Hvalid Hsane Hdelete.
  rewrite execute_path, pathOf_eq, Hvalid, Hsane, Hdelete. done.
Qed.

(** X6. When the create fails, the iteration returns the error of the
    API behind the words failed to create pod for checker; it has sent
    the delete of the strays and the create and nothing else, and the
    pod-deployed flag is what it was. *)
Theorem execute_not_created (E : Env) (client : option Clientset)
    (s : State) (e : error) :
  validatePodSpec (st_ext s) = None →
  sanityCheck (setKubeClient (st_ext s) client) = None →
  env_deleteCollection E (st_tick s + 1) = None →
  (∀ pod, env_create E (st_tick s + 2) pod = inr e) →
  valueOf (execute E client s)
  = Some (Some (errorString ("failed to create pod for checker: " +:+ Error e)))
  ∧ (∃ pod,
       st_trace (stateOf (execute E client s))
       = st_trace s
         ++ [ ADeleteCollection (Namespace (st_ext s))
                ("kuberhealthy-check-name=" +:+ CheckName (st_ext s));
              ACreate (Namespace (st_ext s)) pod ])
  ∧ PodDeployed (st_ext (stateOf (execute E client s))) = PodDeployed (st_ext s).
Proof.
  intros Hvalid Hsane Hdelete Hcreate.
  rewrite execute_path, pathOf_eq, Hvalid, Hsane, Hdelete.
  cbv zeta. rewrite Hcreate.
  split; [done |]. split; [| done]. eexists. reflexivity.
Qed.

(** X7. When the second select runs the timer's case, the iteration
    cancels the watch context, sends a second delete by selector and
    returns the words pod ran too long and was shut down, with the
    error of that delete behind them if it failed. The pod-deployed
    flag, set when the first select was passed, stays true although the
    pod has been deleted. *)
Theorem execute_run_timeout (E : Env) (client : option Clientset) (s : State) :
  validatePodSpec (st_ext s) = None →
  sanityCheck (setKubeClient (st_ext s) client) = None →
  env_deleteCollection E (st_tick s + 1) = None →
  createSucceeds E (st_tick s + 2) →
  timerCase E (st_tick s + 4) = false →
  timerCase E (st_tick s + 6) = true →
  valueOf (execute E client s)
  = Some (Some (errorString
       match env_deleteCollection E (st_tick s + 7) with
       | Some e => "pod ran too long and was shut down"
                   +:+ " but an error occurred when deleting the pod:"
                   +:+ Error e
       | None => "pod ran too long and was shut down"
       end))
  ∧ (∃ pod,
       st_trace (stateOf (execute E client s))
       = st_trace s
         ++ [ ADeleteCollection (Namespace (st_ext s))
                ("kuberhealthy-check-name=" +:+ CheckName (st_ext s));
              ACreate (Namespace (st_ext s)) pod;
              AWatch (Namespace (st_ext s))
                     ("kuberhealthy-run-id=" +:+ env_uuid E (st_tick s));
              AWatch (Namespace (st_ext s))
                     ("kuberhealthy-run-id=" +:+ env_uuid E (st_tick s));
              ACancel;
              ADeleteCollection (Namespace (st_ext s))
                ("kuberhealthy-check-name=" +:+ CheckName (st_ext s)) ])
  ∧ PodDeployed (st_ext (stateOf (execute E client s))) = true.
Proof.
  intros Hvalid Hsane Hdelete Hcreate Hstart Hrun.
  rewrite execute_path, pathOf_eq, Hvalid, Hsane, Hdelete.
  cbv zeta.
  destruct (Hcreate (builtPod
              (setPodSpec (minted E client s)
                 (Some (decoratedSpec (minted E client s)
                          (default apiv1.zeroPodSpec (PodSpec (st_ext s))))))
              (decoratedSpec (minted E client s)
                 (default apiv1.zeroPodSpec (PodSpec (st_ext s))))))
    as [created ->].
  rewrite Hstart, Hrun.
  split; [done |]. split; [| done]. eexists. reflexivity.
Qed.

(** X8. An iteration that meets no error and no time-out returns nil
    and leaves its pod in the cluster: after the create it opens its two
    watches and sends no delete, and the pod-deployed flag is true. The
    pod is deleted by the next iteration, or by [Shutdown]. *)
Theorem execute_done (E : Env) (client : option Clientset) (s : State) :
  validatePodSpec (st_ext s) = None →
  sanityCheck (setKubeClient (st_ext s) client) = None →
  env_deleteCollection E (st_tick s + 1) = None →
  createSucceeds E (st_tick s + 2) →
  timerCase E (st_tick s + 4) = false →
  timerCase E (st_tick s + 6) = false →
  valueOf (execute E client s) = Some None
  ∧ (∃ pod,
       st_trace (stateOf (execute E client s))
       = st_trace s
         ++ [ ADeleteCollection (Namespace (st_ext s))
                ("kuberhealthy-check-name=" +:+ CheckName (st_ext s));
              ACreate (Namespace (st_ext s)) pod;
              AWatch (Namespace (st_ext s))
                     ("kuberhealthy-run-id=" +:+ env_uuid E (st_tick s));
              AWatch (Namespace (st_ext s))
                     ("kuberhealthy-run-id=" +:+ env_uuid E (st_tick s)) ])
  ∧ PodDeployed (st_ext (stateOf (execute E client s))) = true.
Proof.
  intros Hvalid Hsane Hdelete Hcreate Hstart Hrun.
  rewrite execute_path, pathOf_eq, Hvalid, Hsane, Hdelete.
  cbv zeta.
  destruct (Hcreate (builtPod
              (setPodSpec (minted E client s)
                 (Some (decoratedSpec (minted E client s)
                          (default apiv1.zeroPodSpec (PodSpec (st_ext s))))))
              (decoratedSpec (minted E client s)
                 (default apiv1.zeroPodSpec (PodSpec (st_ext s))))))
    as [created ->].
  rewrite Hstart, Hrun.
  split; [done |]. split; [| done]. eexists. reflexivity.
Qed.

Lemma pathActions_iterationAction (ext : Checker) (uuid : string) (pod : apiv1.Pod)
    (p : Path) :
  Forall (iterationAction ext uuid)
         (pathActions (setCurrentCheckUUID ext uuid) pod p).
Proof.
  destruct p; cbn [pathActions];
    repeat first [apply Forall_nil_2 | apply Forall_cons_2; [by cbn |]].
Qed.

Lemma iterationAction_no_sleep (ext : Checker) (uuid : string) (l : list Action) :
  Forall (iterationAction ext uuid) l → List.filter isSleep l = [].
Proof.
  induction l as [|a l IH]; intros Hall; [done |].
  inversion Hall as [|? ? Ha Hl]; subst.
  destruct a; cbn in Ha |- *; try done; by apply IH.
Qed.

(** What the driver needs to know of an iteration. *)
Lemma execute_state (E : Env) (client : option Clientset) (s s1 : State)
    (r : option error) :
  execute E client s = Returned r s1 →
  Debug (st_ext s1) = Debug (st_ext s)
  ∧ RunInterval (st_ext s1) = RunInterval (st_ext s)
  ∧ ∃ added, st_trace s1 = st_trace s ++ added ∧ List.filter isSleep added = [].
Proof.
  rewrite execute_path. intros [= _ <-]. cbn [st_ext st_trace].
  split; [by destruct (pathOf E client s) |].
  split; [by destruct (pathOf E client s) |].
  eexists. split; [reflexivity |].
  eapply iterationAction_no_sleep.
  apply (pathActions_iterationAction (setKubeClient (st_ext s) client)).
Qed.

(** ** The pods an iteration creates *)

Lemma execute_added (E : Env) (client : option Clientset) (s : State) :
  let ext0 := minted E client s in
  let spec := default apiv1.zeroPodSpec (PodSpec ext0) in
  let ext1 := setPodSpec ext0 (Some (decoratedSpec ext0 spec)) in
  addedTo s (execute E client s)
  = pathActions ext0 (builtPod ext1 (decoratedSpec ext0 spec)) (pathOf E client s).
Proof.
  intros ext0 spec ext1. unfold addedTo. rewrite execute_path.
  cbn [stateOf st_trace]. by rewrite drop_app_length.
Qed.

(** X9. Every pod an iteration asks the cluster to create is the
    checker's: it goes to the checker's namespace under the checker's
    pod name, its restart policy is Never and its hostname the check
    name, it carries the label kuberhealthy-check-name with the check
    name and the label kuberhealthy-run-id with the run id minted by
    this iteration. An iteration creates at most one pod, and sends the
    delete of the strays before it. *)
Theorem execute_creates_checker_pod (E : Env) (client : option Clientset) (s : State) :
  let ext := st_ext s in
  let uuid := env_uuid E (st_tick s) in
  let added := addedTo s (execute E client s) in
  st_trace (stateOf (execute E client s)) = st_trace s ++ added
  ∧ length (List.filter isCreate added) ≤ 1
  ∧ ∀ ns pod,
      ACreate ns pod ∈ added →
      ns = Namespace ext
      ∧ metav1.Namespace (apiv1.ObjectMeta pod) = Namespace ext
      ∧ metav1.Name (apiv1.ObjectMeta pod) = PodName ext
      ∧ apiv1.RestartPolicy_ (apiv1.Spec pod) = "Never"
      ∧ apiv1.Hostname (apiv1.Spec pod) = CheckName ext
      ∧ labelsOf pod !! "kuberhealthy-check-name" = Some (CheckName ext)
      ∧ labelsOf pod !! "kuberhealthy-run-id" = Some uuid
      ∧ head added
        = Some (ADeleteCollection (Namespace ext)
                  ("kuberhealthy-check-name=" +:+ CheckName ext)).
Proof.
  intros ext uuid added.
  split.
  { unfold added, addedTo. rewrite execute_path. cbn [stateOf st_trace].
    by rewrite drop_app_length. }
  unfold added. rewrite execute_added.
  split; [destruct (pathOf E client s); cbn; lia |].
  intros ns pod Hin.
  assert (Hpod : ns = Namespace ext
                 ∧ pod = builtPod
                     (setPodSpec (minted E client s)
                        (Some (decoratedSpec (minted E client s)
                                 (default apiv1.zeroPodSpec
                                    (PodSpec (minted E client s))))))
                     (decoratedSpec (minted E client s)
                        (default apiv1.zeroPodSpec (PodSpec (minted E client s))))
                 ∧ head (pathActions (minted E client s) pod (pathOf E client s))
                   = Some (ADeleteCollection (Namespace ext)
                             ("kuberhealthy-check-name=" +:+ CheckName ext))).
  { destruct (pathOf E client s); cbn [pathActions] in Hin;
      repeat (apply elem_of_cons in Hin as [Hin | Hin]; [try discriminate Hin |]);
      try (by apply elem_of_nil in Hin);
      injection Hin as -> ->; done. }
  destruct Hpod as (-> & -> & Hhead).
  do 4 (split; [reflexivity |]). split; [reflexivity |].
  unfold builtPod.
  split; [by rewrite stackLabels_lookup |].
  split; [by rewrite stackLabels_lookup |].
  exact Hhead.
Qed.

(** X10. An iteration asks nothing of the cluster but these: deletes in
    the checker's namespace with the selector kuberhealthy-check-name =
    check name, creates in that namespace, watches in that namespace
    with the selector kuberhealthy-run-id = the run id just minted, and
    cancellations of its watch context. It never gets a pod by name and
    never sleeps. *)
Theorem execute_actions (E : Env) (client : option Clientset) (s : State) :
  Forall (iterationAction (st_ext s) (env_uuid E (st_tick s)))
         (addedTo s (execute E client s)).
Proof.
  rewrite execute_added.
  apply (pathActions_iterationAction (setKubeClient (st_ext s) client)).
Qed.

(** ** The driver *)

Lemma iteration_run (E : Env) (client : option Clientset) (s : State) :
  let slept :=
    if Debug (st_ext s) then s
    else mkState (st_ext s) (st_trace s ++ [ASleep (RunInterval (st_ext s))])
                 (st_tick s) in
  ∃ r s1,
    execute E client slept = Returned r s1
    ∧ iteration E client s
      = Returned tt
          match r with
          | Some e => mkState (setError (st_ext s1) (Error e)) (st_trace s1) (st_tick s1)
          | None => s1
          end.
Proof.
  intros slept.
  assert (Hreturns : ∃ r s1, execute E client slept = Returned r s1)
    by (rewrite execute_path; eauto).
  destruct Hreturns as (r & s1 & Hrun).
  exists r, s1. split; [done |].
  unfold iteration. unfold bind at 1, this.
  assert (Hslept : (if negb (Debug (st_ext s)) then Sleep (Interval (st_ext s))
                    else ret tt) s = Returned tt slept).
  { unfold slept. destruct (Debug (st_ext s)); [by destruct s | done]. }
  rewrite (bind_returned _ _ _ _ _ Hslept), (bind_returned _ _ _ _ _ Hrun).
  by destruct r.
Qed.

(** X11. In debug mode [Run] runs one iteration and returns nil,
    whatever the iteration met: it does not sleep first, it runs
    [execute] once on the state it was given, and a failure of the
    iteration shows in the error buffer only, which then holds the
    message of that failure and nothing else. *)
Theorem Run_debug_once (E : Env) (fuel : nat) (client : option Clientset)
    (s : State) :
  Debug (st_ext s) = true →
  ∃ r s1,
    execute E client s = Returned r s1
    ∧ Run E (S fuel) client s
      = Returned None
          match r with
          | Some e => mkState (setError (st_ext s1) (Error e)) (st_trace s1) (st_tick s1)
          | None => s1
          end.
Proof.
  intros Hdebug.
  destruct (iteration_run E client s) as (r & s1 & Hrun & Hiter).
  rewrite Hdebug in Hrun. exists r, s1. split; [done |].
  cbn [Run]. rewrite (bind_returned _ _ _ _ _ Hiter).
  unfold bind, this.
  assert (Hkept : Debug (st_ext s1) = true).
  { destruct (execute_state E client s s1 r Hrun) as [Hd _]. congruence. }
  destruct r; cbn [st_ext]; [change (Debug (setError (st_ext s1) (Error e)))
                               with (Debug (st_ext s1)) |];
    by rewrite Hkept.
Qed.

Lemma iteration_step (E : Env) (client : option Clientset) (s : State) :
  Debug (st_ext s) = false →
  ∃ s' added,
    iteration E client s = Returned tt s'
    ∧ Debug (st_ext s') = false
    ∧ RunInterval (st_ext s') = RunInterval (st_ext s)
    ∧ st_trace s' = st_trace s ++ ASleep (RunInterval (st_ext s)) :: added
    ∧ List.filter isSleep added = [].
Proof.
  intros Hdebug.
  destruct (iteration_run E client s) as (r & s1 & Hrun & Hiter).
  rewrite Hdebug in Hrun.
  destruct (execute_state E client _ s1 r Hrun)
    as (Hd & Hint & added & Htrace & Hnosleep).
  cbn [st_ext st_trace] in Hd, Hint, Htrace.
  eexists _, added. split; [exact Hiter |].
  destruct r; cbn [st_ext st_trace];
    (split; [exact (eq_trans Hd Hdebug) |]; split; [exact Hint |];
     split; [| exact Hnosleep]; by rewrite Htrace, <- app_assoc).
Qed.

(** X12. Outside debug mode [Run] never returns: for every number of
    rounds it is still in its loop. A round of the loop is: sleep the
    run interval, then run one iteration from the state so reached,
    then put the error of the iteration, if any, in the error buffer,
    then go round again. So the trace of [fuel] rounds is [fuel] blocks,
    each of them the sleep of the run interval followed by the actions
    of one iteration, none of which is a sleep: the sleep comes once
    before every iteration, the first included, and at no other time. *)
Theorem Run_loops_forever (E : Env) (client : option Clientset) (fuel : nat) :
  ∀ s : State,
    Debug (st_ext s) = false →
    (∃ r s1,
       execute E client
         (mkState (st_ext s) (st_trace s ++ [ASleep (RunInterval (st_ext s))])
                  (st_tick s))
       = Returned r s1
       ∧ Run E (S fuel) client s
         = Run E fuel client
             match r with
             | Some e =>
                 mkState (setError (st_ext s1) (Error e)) (st_trace s1) (st_tick s1)
             | None => s1
             end)
    ∧ ∃ s' rounds,
        Run E fuel client s = OutOfFuel s'
        ∧ st_trace s' = st_trace s ++ concat rounds
        ∧ length rounds = fuel
        ∧ Forall (fun round =>
                    ∃ acts, round = ASleep (RunInterval (st_ext s)) :: acts
                            ∧ List.filter isSleep acts = [])
                 rounds
        ∧ List.filter isSleep (concat rounds)
          = replicate fuel (ASleep (RunInterval (st_ext s))).
Proof.
  induction fuel as [|fuel IH]; intros s Hdebug.
  - split.
    + destruct (iteration_run E client s) as (r & s1 & Hrun & Hiter).
      rewrite Hdebug in Hrun. exists r, s1. split; [exact Hrun |].
      destruct (iteration_step E client s Hdebug)
        as (s2 & added & Hiter2 & Hdebug2 & _).
      rewrite Hiter in Hiter2. injection Hiter2 as <-.
      cbn [Run]. rewrite (bind_returned _ _ _ _ _ Hiter).
      unfold bind, this. by rewrite Hdebug2.
    + exists s, []. cbn. by rewrite app_nil_r.
  - destruct (iteration_step E client s Hdebug)
      as (s1 & added & Hiter & Hdebug1 & Hint & Htrace & Hnosleep).
    assert (Hround : Run E (S fuel) client s = Run E fuel client s1).
    { cbn [Run]. rewrite (bind_returned _ _ _ _ _ Hiter).
      unfold bind, this. by rewrite Hdebug1. }
    split.
    + destruct (iteration_run E client s) as (r & s2 & Hrun & Hiter2).
      rewrite Hdebug in Hrun. exists r, s2. split; [exact Hrun |].
      rewrite Hiter in Hiter2. injection Hiter2 as Hs1.
      change (Run E (S (S fuel)) client s)
        with ((_ <- iteration E client ;;
               ext <- this ;;
               if Debug ext then ret None else Run E (S fuel) client) s).
      rewrite (bind_returned _ _ _ _ _ Hiter).
      unfold bind at 1, this. rewrite Hdebug1. by rewrite Hs1.
    + destruct (IH s1 Hdebug1)
        as (_ & s' & rounds & Hrun & Hmore & Hlen & Hrounds & Hsleeps).
      exists s', ((ASleep (RunInterval (st_ext s)) :: added) :: rounds).
      split; [by rewrite Hround |].
      split; [cbn [concat]; by rewrite Hmore, Htrace, <- app_assoc |].
      split; [cbn; by rewrite Hlen |].
      split.
      * constructor; [by exists added |]. by rewrite <- Hint.
      * cbn [concat]. rewrite <- app_comm_cons. cbn [List.filter isSleep].
        rewrite List.filter_app, Hnosleep, Hsleeps. cbn. by rewrite Hint.
Qed.

(** ** Shutdown, again *)

Lemma waitForShutdown_keeps_checker (E : Env) (ctx : Context) (fuel : nat) :
  ∀ (looks : nat) (s : State),
    st_ext (stateOf (waitForShutdown E ctx fuel looks s)) = st_ext s.
Proof.
  induction fuel as [|fuel IH]; intros looks s; [done |].
  destruct (kubeClient (st_ext s)) as [c|] eqn:Hc.
  - rewrite (waitForShutdown_step E ctx c) by done. cbv zeta.
    destruct (env_get E (st_tick s)) as [p | err]; [| done].
    destruct (negb _ && negb _); [| done].
    destruct (ctx looks); [done |]. by rewrite IH.
  - cbn [waitForShutdown]. unfold podExists. run. by rewrite Hc.
Qed.

(** X13. [Shutdown] never writes the checker: whether it finds no pod
    deployed, fails on the delete, sees the pod go, times out or runs
    out of rounds, every field is what it was. The pod-deployed flag in
    particular is not reset once the pod is gone. *)
Theorem Shutdown_keeps_checker (E : Env) (fuel : nat) (s : State) :
  st_ext (stateOf (Shutdown E fuel s)) = st_ext s.
Proof.
  destruct (PodDeployed (st_ext s)) eqn:Hdeployed;
    [| by rewrite Shutdown_not_deployed].
  destruct (kubeClient (st_ext s)) as [c|] eqn:Hc.
  - rewrite (Shutdown_deployed E fuel s c) by done.
    destruct (env_deleteCollection E (st_tick s)); [done |].
    by rewrite waitForShutdown_keeps_checker.
  - unfold Shutdown. run. by rewrite Hdeployed, Hc.
Qed.

(** X14. When the delete of [Shutdown] fails, [Shutdown] returns the
    error of the API as it is, and neither sleeps nor gets the pod: the
    delete by the check-name selector is all it has asked. *)
Theorem Shutdown_delete_error (E : Env) (fuel : nat) (s : State) (c : Clientset)
    (e : error) :
  PodDeployed (st_ext s) = true →
  kubeClient (st_ext s) = Some c →
  env_deleteCollection E (st_tick s) = Some e →
  valueOf (Shutdown E fuel s) = Some (Some e)
  ∧ st_trace (stateOf (Shutdown E fuel s))
    = st_trace s
      ++ [ADeleteCollection (Namespace (st_ext s))
            ("kuberhealthy-check-name=" +:+ CheckName (st_ext s))].
Proof.
  intros Hdeployed Hc Hdelete.
  by rewrite (Shutdown_delete_fails E fuel s c e).
Qed.

(** ** The watchers, seen from the phases of the pod *)

Lemma drainEvents_signalFor (target : apiv1.PodPhase → bool) (aborted uuid : string)
    (ctx : Context) (events : list watch.Event) :
  ∀ looks,
    drainEvents target aborted uuid ctx looks events
    = signalFor target aborted ctx looks (ownPhases uuid events).
Proof.
  induction events as [|e rest IH]; intros looks; [done |].
  cbn [drainEvents ownPhases].
  destruct (watch.Object_ e) as [p|]; [| apply IH].
  destruct (String.eqb (apiv1.label p kuberhealthyRunIDLabel) uuid);
    cbn [negb signalFor]; [| apply IH].
  destruct (target _); [done |]. destruct (ctx looks); [done | apply IH].
Qed.

Lemma signalFor_live (target : apiv1.PodPhase → bool) (aborted : string)
    (phases : list apiv1.PodPhase) :
  ∀ looks,
    signalFor target aborted watchContext looks phases
    = if existsb target phases then None else prematureClose.
Proof.
  induction phases as [|phase rest IH]; intros looks; [done |].
  cbn [signalFor existsb]. destruct (target phase); [done |].
  cbn. apply IH.
Qed.

(** X15. What a watcher signals depends on the phases of the pods of
    its own run only, in the order the watch shows them: events that are
    no pods and pods with another run id change nothing, wherever they
    stand, and do not count as a look at the context. *)
Theorem drainEvents_own_phases (target : apiv1.PodPhase → bool)
    (aborted uuid : string) (ctx : Context) (looks : nat)
    (events events' : list watch.Event) :
  ownPhases uuid events = ownPhases uuid events' →
  drainEvents target aborted uuid ctx looks events
  = drainEvents target aborted uuid ctx looks events'.
Proof.
  intros Hsame. by rewrite !drainEvents_signalFor, Hsame.
Qed.

(** X16. The exit watcher, with a client set and a context that is not
    cancelled, as in [execute]: if the watch cannot be opened it signals
    the error of the API; otherwise it signals nil when some event of
    the watch shows the pod of this run Succeeded or Failed, and the
    premature-close error when the watch ends without one. Pending,
    Running and Unknown do not end the wait. It opens one watch, by the
    run-id selector, and writes nothing of the checker. *)
Theorem waitForPodExit_signal (E : Env) (s : State) (c : Clientset) :
  kubeClient (st_ext s) = Some c →
  waitForPodExit E watchContext s
  = Returned
      match env_watch E (st_tick s) with
      | inr err => Some err
      | inl events =>
          if existsb (fun phase => String.eqb phase "Succeeded"
                                   || String.eqb phase "Failed")
                     (ownPhases (currentCheckUUID (st_ext s)) events)
          then None
          else Some (errorString "external checker watch aborted pre-maturely")
      end
      (mkState (st_ext s)
         (st_trace s
          ++ [AWatch (Namespace (st_ext s))
                     ("kuberhealthy-run-id=" +:+ currentCheckUUID (st_ext s))])
         (S (st_tick s))).
Proof.
  intros Hc. unfold waitForPodExit. run. rewrite Hc. cbn.
  destruct (env_watch E (st_tick s)) as [events | err]; [| done].
  unfold ret. f_equal.
  by rewrite drainEvents_signalFor, signalFor_live.
Qed.

(** X17. A watcher notices that its context is done only when an event
    shows the pod of its own run in a phase it is not waiting for. With
    a context done from the start, the first event of the own pod
    decides: nil if it shows an awaited phase, the aborted error
    otherwise; and when the watch shows no pod of the run at all, the
    watcher runs to the end of the watch and signals the premature-close
    error, not the abort. *)
Theorem drainEvents_done_context (target : apiv1.PodPhase → bool)
    (aborted uuid : string) (ctx : Context) (looks : nat)
    (events : list watch.Event) :
  ctx looks = true →
  drainEvents target aborted uuid ctx looks events
  = match ownPhases uuid events with
    | [] => Some (errorString "external checker watch aborted pre-maturely")
    | phase :: _ => if target phase then None else Some (errorString aborted)
    end.
Proof.
  intros Hdone. rewrite drainEvents_signalFor.
  destruct (ownPhases uuid events) as [|phase rest]; [done |].
  cbn [signalFor]. by rewrite Hdone.
Qed.

(** ** Validation and sanity check, again *)

(** X18. The init containers have no part in the validation: whatever
    they are, with or without images, none or many, [validatePodSpec]
    gives the same answer. A pod spec with init containers and no
    container is refused like one with neither. *)
Theorem validatePodSpec_ignores_InitContainers (ext : Checker)
    (inits : list apiv1.Container) :
  validatePodSpec (withInitContainers ext inits) = validatePodSpec ext.
Proof.
  unfold withInitContainers, validatePodSpec.
  destruct (PodSpec ext) as [spec|] eqn:Hspec; [| by rewrite Hspec].
  cbn. destruct (apiv1.Containers spec) as [|c cs]; [| done].
  cbn. by destruct (length inits =? 0)%nat,
                   (length (apiv1.InitContainers spec) =? 0)%nat.
Qed.

(** X19. The error for a missing image names the first container
    without one: when the containers before it all have an image, the
    message is no image found in check's PodSpec for container, the
    name of that container, and a full stop, whatever comes after it. *)
Theorem validatePodSpec_first_without_image (ext : Checker) (spec : apiv1.PodSpec)
    (before after : list apiv1.Container) (c : apiv1.Container) :
  PodSpec ext = Some spec →
  apiv1.Containers spec = before ++ c :: after →
  Forall (fun b => apiv1.Image b ≠ "") before →
  apiv1.Image c = "" →
  validatePodSpec ext
  = Some (errorString ("no image found in check's PodSpec for container "
                       +:+ apiv1.Container_Name c +:+ ".")).
Proof.
  intros Hspec Hcs Hbefore Himage.
  unfold validatePodSpec. rewrite Hspec, Hcs.
  assert (Hlen : (length (before ++ c :: after) =? 0)%nat = false).
  { rewrite length_app. cbn. apply Nat.eqb_neq. lia. }
  rewrite Hlen. cbn [andb]. clear Hcs Hlen.
  induction Hbefore as [|b before Hb _ IH]; cbn.
  - by rewrite Himage.
  - destruct (String.length (apiv1.Image b) =? 0)%nat eqn:Hzero; [| exact IH].
    by apply length_zero_empty in Hzero.
Qed.

(** X20. The sanity check passes exactly when the namespace and the pod
    name are not empty and a client is set. It reports the first thing
    missing, in that order: an empty namespace before an empty pod name,
    an empty pod name before a nil client. *)
Theorem sanityCheck_spec (ext : Checker) :
  (sanityCheck ext = None
   ↔ Namespace ext ≠ "" ∧ PodName ext ≠ "" ∧ is_Some (kubeClient ext))
  ∧ (Namespace ext = "" →
     sanityCheck ext = Some (errorString "check namespace can not be empty"))
  ∧ (Namespace ext ≠ "" → PodName ext = "" →
     sanityCheck ext = Some (errorString "pod name can not be empty"))
  ∧ (Namespace ext ≠ "" → PodName ext ≠ "" → kubeClient ext = None →
     sanityCheck ext = Some (errorString "kubeClient can not be nil")).
Proof.
  unfold sanityCheck.
  destruct (String.eqb_spec (Namespace ext) "") as [Hns | Hns];
    [by repeat split; try done; intros (? & _) |].
  destruct (String.eqb_spec (PodName ext) "") as [Hname | Hname];
    [by repeat split; try done; intros (_ & ? & _) |].
  destruct (kubeClient ext) as [c|];
    repeat split; try done; try (by eexists); by intros (_ & _ & [? ?]).
Qed.

(** ** The error buffer *)

Lemma foldl_addError (msgs : list string) :
  ∀ ext, ErrorMessages (foldl addError ext msgs) = ErrorMessages ext ++ msgs.
Proof.
  induction msgs as [|m msgs IH]; intros ext; cbn [foldl].
  - by rewrite app_nil_r.
  - rewrite IH. cbn. by rewrite <- app_assoc.
Qed.

(** X21. The three ways to write the error buffer: [addError] keeps
    what is there and adds behind it, so that messages added one after
    the other are listed in the order they came and the status is
    Failing with all of them; [setError] forgets them all for its one
    message; [clearErrors] forgets them all and the status is OK. *)
Theorem error_buffer_writes (ext : Checker) (msgs : list string) (m : string) :
  ErrorMessages (foldl addError ext msgs) = ErrorMessages ext ++ msgs
  ∧ CurrentStatus (addError (foldl addError ext msgs) m)
    = (false, ErrorMessages ext ++ msgs ++ [m])
  ∧ CurrentStatus (setError (foldl addError ext msgs) m) = (false, [m])
  ∧ CurrentStatus (clearErrors (foldl addError ext msgs)) = (true, []).
Proof.
  split; [apply foldl_addError |]. split; [| done].
  unfold CurrentStatus, addError. cbn. rewrite foldl_addError, <- app_assoc.
  by destruct (ErrorMessages ext ++ msgs ++ [m]) eqn:Hbuf;
    [apply app_eq_nil in Hbuf as [_ Hbuf]; apply app_eq_nil in Hbuf as [_ ?] |].
Qed.

(** ** A checker fresh from [New] *)

(** X23. A checker as [New] builds it cannot run a check yet: until a
    pod spec is attached, every iteration fails on the validation, with
    the message that the pod spec was nil, and asks nothing of the
    cluster. And when the environment variable POD_NAMESPACE was empty
    at start-up, attaching a valid pod spec is not enough: the iteration
    fails on the sanity check, namespace first. *)
Theorem New_cannot_run_yet (E : Env) (client : option Clientset)
    (namespace : string) (trace : list Action) (tick : nat) :
  (valueOf (execute E client (mkState (fst (New namespace)) trace tick))
   = Some (Some (errorString
        "unable to determine pod spec for checker  Pod spec was nil"))
   ∧ st_trace (stateOf (execute E client (mkState (fst (New namespace)) trace tick)))
     = trace)
  ∧ ∀ spec,
      validatePodSpec (setPodSpec (fst (New "")) (Some spec)) = None →
      valueOf (execute E client
                 (mkState (setPodSpec (fst (New "")) (Some spec)) trace tick))
      = Some (Some (errorString "check namespace can not be empty"))
      ∧ st_trace (stateOf (execute E client
                   (mkState (setPodSpec (fst (New "")) (Some spec)) trace tick)))
        = trace.
Proof.
  split.
  - rewrite execute_path, pathOf_eq. cbn. by rewrite app_nil_r.
  - intros spec Hvalid.
    rewrite execute_path, pathOf_eq. cbn [st_ext]. rewrite Hvalid.
    cbn. by rewrite app_nil_r.
Qed.

(** ** The properties above, at sample inputs *)

Lemma execute_invalid_spec_witness :
  validatePodSpec (st_ext Cases.bare)
  = Some (errorString "unable to determine pod spec for checker  Pod spec was nil")
  ∧ valueOf (execute Sample.quietEnv (Some 0) Cases.bare)
    = Some (Some (errorString
         "unable to determine pod spec for checker  Pod spec was nil")).
Proof.
  split; [reflexivity |].
  by rewrite (execute_invalid_spec Sample.quietEnv (Some 0) Cases.bare _ eq_refl).
Defined.

Lemma execute_sanity_violation_witness :
  validatePodSpec (st_ext Sample.start) = None
  ∧ sanityCheck (setKubeClient (st_ext Sample.start) None)
    = Some (errorString "kubeClient can not be nil")
  ∧ valueOf (execute Sample.quietEnv None Sample.start)
    = Some (Some (errorString "kubeClient can not be nil")).
Proof.
  split; [reflexivity |]. split; [reflexivity |].
  destruct (execute_sanity_violation Sample.quietEnv None Sample.start _
              eq_refl eq_refl) as (spec & _ & Hrun).
  by rewrite Hrun.
Defined.

Lemma execute_strays_not_deleted_witness :
  validatePodSpec (st_ext Sample.start) = None
  ∧ sanityCheck (setKubeClient (st_ext Sample.start) (Some 0)) = None
  ∧ env_deleteCollection Sample.flakyEnv (st_tick Sample.start + 1)
    = Some (StatusError "connection refused")
  ∧ valueOf (execute Sample.flakyEnv (Some 0) Sample.start)
    = Some (Some (errorString
         "failed to clean up pods before starting external checker: connection refused")).
Proof.
  do 3 (split; [reflexivity |]).
  exact (proj1 (execute_strays_not_deleted Sample.flakyEnv (Some 0) Sample.start _
                  eq_refl eq_refl eq_refl)).
Defined.

Lemma execute_not_created_witness :
  validatePodSpec (st_ext Sample.start) = None
  ∧ sanityCheck (setKubeClient (st_ext Sample.start) (Some 0)) = None
  ∧ env_deleteCollection Cases.refusingEnv (st_tick Sample.start + 1) = None
  ∧ (∀ pod, env_create Cases.refusingEnv (st_tick Sample.start + 2) pod
            = inr (StatusError "quota exceeded"))
  ∧ valueOf (execute Cases.refusingEnv (Some 0) Sample.start)
    = Some (Some (errorString "failed to create pod for checker: quota exceeded")).
Proof.
  do 3 (split; [reflexivity |]). split; [reflexivity |].
  exact (proj1 (execute_not_created Cases.refusingEnv (Some 0) Sample.start _
                  eq_refl eq_refl eq_refl (fun _ => eq_refl))).
Defined.

Lemma execute_run_timeout_witness :
  validatePodSpec (st_ext Sample.start) = None
  ∧ sanityCheck (setKubeClient (st_ext Sample.start) (Some 0)) = None
  ∧ env_deleteCollection Cases.longRunEnv (st_tick Sample.start + 1) = None
  ∧ createSucceeds Cases.longRunEnv (st_tick Sample.start + 2)
  ∧ timerCase Cases.longRunEnv (st_tick Sample.start + 4) = false
  ∧ timerCase Cases.longRunEnv (st_tick Sample.start + 6) = true
  ∧ valueOf (execute Cases.longRunEnv (Some 0) Sample.start)
    = Some (Some (errorString
         "pod ran too long and was shut down but an error occurred when deleting the pod:gone away"))
  ∧ PodDeployed (st_ext (stateOf (execute Cases.longRunEnv (Some 0) Sample.start)))
    = true.
Proof.
  assert (Hcreate : createSucceeds Cases.longRunEnv (st_tick Sample.start + 2))
    by (intros pod; by exists pod).
  do 3 (split; [reflexivity |]). split; [exact Hcreate |].
  do 2 (split; [reflexivity |]).
  destruct (execute_run_timeout Cases.longRunEnv (Some 0) Sample.start
              eq_refl eq_refl eq_refl Hcreate eq_refl eq_refl)
    as (Hvalue & _ & Hflag).
  split; [exact Hvalue | exact Hflag].
Defined.

Lemma execute_done_witness :
  validatePodSpec (st_ext Sample.start) = None
  ∧ sanityCheck (setKubeClient (st_ext Sample.start) (Some 0)) = None
  ∧ env_deleteCollection Sample.quietEnv (st_tick Sample.start + 1) = None
  ∧ createSucceeds Sample.quietEnv (st_tick Sample.start + 2)
  ∧ timerCase Sample.quietEnv (st_tick Sample.start + 4) = false
  ∧ timerCase Sample.quietEnv (st_tick Sample.start + 6) = false
  ∧ valueOf (execute Sample.quietEnv (Some 0) Sample.start) = Some None
  ∧ PodDeployed (st_ext (stateOf (execute Sample.quietEnv (Some 0) Sample.start)))
    = true.
Proof.
  assert (Hcreate : createSucceeds Sample.quietEnv (st_tick Sample.start + 2))
    by (intros pod; by exists pod).
  do 3 (split; [reflexivity |]). split; [exact Hcreate |].
  do 2 (split; [reflexivity |]).
  destruct (execute_done Sample.quietEnv (Some 0) Sample.start
              eq_refl eq_refl eq_refl Hcreate eq_refl eq_refl)
    as (Hvalue & _ & Hflag).
  split; [exact Hvalue | exact Hflag].
Defined.

Lemma Run_debug_once_witness :
  Debug (st_ext Cases.debugging) = true
  ∧ valueOf (Run Cases.lockedEnv 1 (Some 0) Cases.debugging) = Some None.
Proof.
  split; [reflexivity |].
  destruct (Run_debug_once Cases.lockedEnv 0 (Some 0) Cases.debugging eq_refl)
    as (r & s1 & _ & Hrun).
  by rewrite Hrun.
Defined.

Lemma Run_loops_forever_witness :
  Debug (st_ext Sample.start) = false
  ∧ ∃ s' rounds,
      Run Sample.flakyEnv 2 (Some 0) Sample.start = OutOfFuel s'
      ∧ st_trace s' = st_trace Sample.start ++ concat rounds
      ∧ length rounds = 2
      ∧ List.filter isSleep (concat rounds)
        = [ASleep 600000000000%Z; ASleep 600000000000%Z].
Proof.
  split; [reflexivity |].
  destruct (Run_loops_forever Sample.flakyEnv (Some 0) 2 Sample.start eq_refl)
    as (_ & s' & rounds & Hrun & Htrace & Hlen & _ & Hsleeps).
  exists s', rounds. by repeat split.
Defined.

Lemma Shutdown_delete_error_witness :
  PodDeployed (st_ext Sample.deployed) = true
  ∧ kubeClient (st_ext Sample.deployed) = Some 0
  ∧ env_deleteCollection Cases.lockedEnv (st_tick Sample.deployed)
    = Some (StatusError "forbidden")
  ∧ valueOf (Shutdown Cases.lockedEnv 5 Sample.deployed)
    = Some (Some (StatusError "forbidden")).
Proof.
  do 3 (split; [reflexivity |]).
  exact (proj1 (Shutdown_delete_error Cases.lockedEnv 5 Sample.deployed 0 _
                  eq_refl eq_refl eq_refl)).
Defined.

Lemma drainEvents_own_phases_witness :
  ownPhases "run-a" Cases.noisyEvents = ownPhases "run-a" Cases.ownEvents
  ∧ drainEvents succeededOrFailed "external checker pod completion watch aborted"
      "run-a" watchContext 0 Cases.noisyEvents
    = drainEvents succeededOrFailed "external checker pod completion watch aborted"
        "run-a" watchContext 0 Cases.ownEvents.
Proof.
  split; [reflexivity |].
  exact (drainEvents_own_phases _ _ "run-a" _ 0 Cases.noisyEvents Cases.ownEvents
           eq_refl).
Defined.

Lemma waitForPodExit_signal_witness :
  kubeClient (st_ext Cases.watching) = Some 0
  ∧ valueOf (waitForPodExit Cases.noisyEnv watchContext Cases.watching) = Some None.
Proof.
  split; [reflexivity |].
  by rewrite (waitForPodExit_signal Cases.noisyEnv Cases.watching 0 eq_refl).
Defined.

Lemma drainEvents_done_context_witness :
  (fun _ : nat => true) 0 = true
  ∧ drainEvents runningOrFailed "external checker pod startup watch aborted"
      "run-a" (fun _ => true) 0 Cases.noisyEvents
    = Some (errorString "external checker pod startup watch aborted").
Proof.
  split; [reflexivity |].
  by rewrite (drainEvents_done_context _ _ "run-a" (fun _ => true) 0
                Cases.noisyEvents eq_refl).
Defined.

Lemma validatePodSpec_first_without_image_witness :
  PodSpec Cases.twoContainers
  = Some (apiv1.setContainers Sample.spec
            [Sample.container; Cases.unnamedImage; Sample.container])
  ∧ Forall (fun b => apiv1.Image b ≠ "") [Sample.container]
  ∧ apiv1.Image Cases.unnamedImage = ""
  ∧ validatePodSpec Cases.twoContainers
    = Some (errorString "no image found in check's PodSpec for container sidecar.").
Proof.
  assert (Hbefore : Forall (fun b => apiv1.Image b ≠ "") [Sample.container])
    by (repeat constructor; discriminate).
  split; [reflexivity |]. split; [exact Hbefore |]. split; [reflexivity |].
  exact (validatePodSpec_first_without_image Cases.twoContainers _
           [Sample.container] [Sample.container] Cases.unnamedImage
           eq_refl eq_refl Hbefore eq_refl).
Defined.

Lemma New_cannot_run_yet_witness :
  validatePodSpec (setPodSpec (fst (New "")) (Some Sample.spec)) = None
  ∧ valueOf (execute Sample.quietEnv (Some 0)
               (mkState (setPodSpec (fst (New "")) (Some Sample.spec)) [] 0))
    = Some (Some (errorString "check namespace can not be empty")).
Proof.
  split; [reflexivity |].
  exact (proj1 (proj2 (New_cannot_run_yet Sample.quietEnv (Some 0) "" [] 0)
                  Sample.spec eq_refl)).
Defined.

Lemma sanityCheck_spec_witness :
  Namespace (fst (New "")) = ""
  ∧ sanityCheck (fst (New ""))
    = Some (errorString "check namespace can not be empty").
Proof.
  split; [reflexivity |].
  exact (proj1 (proj2 (sanityCheck_spec (fst (New "")))) eq_refl).
Defined.

(** * The decoration in memory *)

(** ** [append] *)

Section Append.
Import goslice.
Variable grow : nat → nat → nat.

Lemma length_writeAt (l : list apiv1.EnvVar) (p : nat) (vs : list apiv1.EnvVar) :
  p + length vs ≤ length l → length (writeAt l p vs) = length l.
Proof.
  intros Hfit. unfold writeAt.
  rewrite !length_app, length_take, length_drop. lia.
Qed.

Lemma lookup_writeAt_outside (l : list apiv1.EnvVar) (p : nat)
    (vs : list apiv1.EnvVar) (j : nat) :
  p + length vs ≤ length l →
  j < p ∨ p + length vs ≤ j →
  writeAt l p vs !! j = l !! j.
Proof.
  intros Hfit Hout. unfold writeAt.
  destruct Hout as [Hlt | Hge].
  - rewrite lookup_app_l by (rewrite length_take; lia).
    by rewrite lookup_take_lt.
  - rewrite lookup_app_r by (rewrite length_take; lia).
    rewrite length_take, lookup_app_r by lia.
    rewrite lookup_drop. f_equal. lia.
Qed.

Lemma backing_insert (h : Heap) (a : nat) (x : list apiv1.EnvVar) (t : Slice) :
  backing (<[a := x]> h) t
  = if decide (a = array t ∧ a < length h) then x else backing h t.
Proof.
  unfold backing. case_decide as Hcase.
  - destruct Hcase as [-> Hlt]. by rewrite list_lookup_insert_eq.
  - destruct (decide (a = array t)) as [-> | Hne].
    + by rewrite list_insert_ge by lia.
    + by rewrite list_lookup_insert_ne.
Qed.

Lemma contents_length (h : Heap) (s : Slice) :
  wf h s → length (contents h s) = len s.
Proof.
  intros [Hlen Hcap]. unfold contents.
  rewrite length_take, length_drop. lia.
Qed.

(** What a slice shows is decided by the elements of its array within
    its window. *)
Lemma contents_ext (h h' : Heap) (t : Slice) :
  (∀ j, offset t ≤ j < offset t + len t → backing h' t !! j = backing h t !! j) →
  contents h' t = contents h t.
Proof.
  intros Hsame. unfold contents. apply list_eq. intros i.
  destruct (decide (i < len t)) as [Hi | Hi].
  - rewrite !lookup_take_lt, !lookup_drop by done. apply Hsame. lia.
  - by rewrite !lookup_take_ge by lia.
Qed.

(** [append] shows the old elements and then the new ones, in the same
    array or in a new one. *)
Lemma append_contents (h : Heap) (s : Slice) (vs : list apiv1.EnvVar) :
  wf h s →
  contents (append grow h s vs).1 (append grow h s vs).2 = contents h s ++ vs
  ∧ wf (append grow h s vs).1 (append grow h s vs).2.
Proof.
  intros Hwf. pose proof (contents_length h s Hwf) as Hshown.
  destruct Hwf as [Hlen Hcap]. unfold append.
  destruct (len s + length vs <=? cap s) eqn:Hfits; cbn [fst snd].
  - apply Nat.leb_le in Hfits.
    assert (Hback : backing (<[array s := writeAt (backing h s) (offset s + len s) vs]> h)
                      (mkSlice (array s) (offset s) (len s + length vs) (cap s))
                    = writeAt (backing h s) (offset s + len s) vs).
    { rewrite backing_insert. cbn [array]. case_decide as Hcase; [done |].
      assert (Hout : length h ≤ array s) by (destruct (decide (array s < length h)); [tauto | lia]).
      unfold backing, writeAt in Hcap |- *. cbn [array].
      rewrite (lookup_ge_None_2 h (array s)) in Hcap |- * by done.
      cbn in Hcap |- *. assert (length vs = 0) as Hvs by lia.
      destruct vs; [| done]. by rewrite ?take_nil, ?drop_nil. }
    split.
    + unfold contents in Hshown |- *. cbn [array offset len cap]. rewrite Hback.
      unfold writeAt.
      rewrite drop_app_le by (rewrite length_take; lia).
      rewrite <- take_drop_commute, app_assoc.
      rewrite take_app_length'; [done |].
      rewrite length_app, Hshown. lia.
    + unfold wf. cbn [array offset len cap]. rewrite Hback.
      rewrite length_writeAt by lia. lia.
  - apply Nat.leb_gt in Hfits.
    assert (Hback : backing (h ++ [contents h s ++ vs
                                   ++ replicate ((len s + length vs)
                                                 `max` grow (cap s) (len s + length vs)
                                                 - (len s + length vs)) zero])
                      (mkSlice (length h) 0 (len s + length vs)
                         ((len s + length vs) `max` grow (cap s) (len s + length vs)))
                    = contents h s ++ vs
                      ++ replicate ((len s + length vs)
                                    `max` grow (cap s) (len s + length vs)
                                    - (len s + length vs)) zero).
    { unfold backing. cbn [array].
      by rewrite lookup_app_r, Nat.sub_diag by lia. }
    split.
    + unfold contents at 1. cbn [array offset len cap]. rewrite Hback, drop_0.
      rewrite app_assoc, take_app_length'; [done |].
      rewrite length_app, Hshown. lia.
    + unfold wf. cbn [array offset len cap]. rewrite Hback.
      rewrite !length_app, length_replicate, Hshown. lia.
Qed.

(** [append] leaves alone what a slice disjoint from its argument
    shows, and its result is disjoint from that slice as well. *)
Lemma append_frame (h : Heap) (s t : Slice) (vs : list apiv1.EnvVar) :
  wf h s → wf h t → disjoint s t →
  contents (append grow h s vs).1 t = contents h t
  ∧ wf (append grow h s vs).1 t
  ∧ disjoint (append grow h s vs).2 t.
Proof.
  intros [Hlen Hcap] [Hlent Hcapt] Hdis. unfold append.
  destruct (len s + length vs <=? cap s) eqn:Hfits; cbn [fst snd].
  - apply Nat.leb_le in Hfits.
    assert (Hback : ∀ j, (array t = array s → j < offset s ∨ offset s + cap s ≤ j) →
              backing (<[array s := writeAt (backing h s) (offset s + len s) vs]> h) t
                !! j = backing h t !! j).
    { intros j Hj. rewrite backing_insert. case_decide as Hcase; [| done].
      destruct Hcase as [Harr _].
      assert (Hsame : backing h t = backing h s) by (unfold backing; by rewrite Harr).
      rewrite Hsame. apply lookup_writeAt_outside; [lia |].
      destruct (Hj (eq_sym Harr)); lia. }
    assert (Hsize : length (backing (<[array s := writeAt (backing h s)
                                                    (offset s + len s) vs]> h) t)
                    = length (backing h t)).
    { rewrite backing_insert. case_decide as Hcase; [| done].
      destruct Hcase as [Harr _].
      assert (Hsame : backing h t = backing h s) by (unfold backing; by rewrite Harr).
      rewrite Hsame. apply length_writeAt. lia. }
    split; [| split].
    + apply contents_ext. intros j Hj. apply Hback. intros Harr.
      destruct Hdis as [Hne | [Hbefore | Hafter]]; [congruence | lia | lia].
    + unfold wf. rewrite Hsize. done.
    + exact Hdis.
  - apply Nat.leb_gt in Hfits.
    destruct (decide (array t < length h)) as [Hin | Hout].
    + assert (Hback : ∀ x, backing (h ++ [x]) t = backing h t).
      { intros x. unfold backing. by rewrite lookup_app_l. }
      split; [| split].
      * unfold contents. by rewrite Hback.
      * unfold wf. by rewrite Hback.
      * left. cbn [array]. lia.
    + assert (Hempty : backing h t = []).
      { unfold backing. by rewrite lookup_ge_None_2 by lia. }
      rewrite Hempty in Hcapt. cbn in Hcapt.
      assert (Hzero : offset t = 0 ∧ cap t = 0 ∧ len t = 0) by lia.
      destruct Hzero as (Hoff & Hcap0 & Hlen0).
      split; [| split].
      * unfold contents. by rewrite Hlen0.
      * unfold wf. lia.
      * right. right. cbn [offset]. lia.
Qed.

Lemma disjoint_sym (s t : Slice) : disjoint s t → disjoint t s.
Proof. unfold disjoint. intuition. Qed.

Lemma separated_snoc (l : list Slice) (x : Slice) :
  separated (l ++ [x]) ↔ separated l ∧ Forall (fun t => disjoint t x) l.
Proof.
  induction l as [|s l IH]; cbn [separated app].
  - split; [by intros _ | by intros _; split].
  - rewrite IH, Forall_app, Forall_singleton, list.Forall_cons. tauto.
Qed.

Lemma separated_snoc_cons (l : list Slice) (x : Slice) :
  separated (l ++ [x]) → separated (x :: l).
Proof.
  rewrite separated_snoc. intros [Hsep Hall]. split; [| done].
  eapply list.Forall_impl; [exact Hall |]. intros t. apply disjoint_sym.
Qed.

(** The loop: with the slices in separate storage, each slice ends up
    showing what it showed and then the variables, the slices that were
    not part of the loop show what they showed, and all are in separate
    storage still. *)
Lemma appendEnvs_separated (vars : list apiv1.EnvVar) (slices : list Slice) :
  ∀ (h : Heap) (frame : list Slice),
    Forall (wf h) (slices ++ frame) →
    separated (slices ++ frame) →
    Forall2 (fun s s' => contents (appendEnvs grow vars h slices).1 s'
                         = contents h s ++ vars)
            slices (appendEnvs grow vars h slices).2
    ∧ Forall (fun t => contents (appendEnvs grow vars h slices).1 t = contents h t)
             frame
    ∧ Forall (wf (appendEnvs grow vars h slices).1)
             ((appendEnvs grow vars h slices).2 ++ frame)
    ∧ separated ((appendEnvs grow vars h slices).2 ++ frame).
Proof.
  induction slices as [|s rest IH]; intros h frame Hwf Hsep.
  - cbn. split; [constructor |]. split; [by apply Forall_true |]. done.
  - cbn [app] in Hwf, Hsep. apply list.Forall_cons in Hwf as [Hs Hothers].
    destruct Hsep as [Hdis Hsep].
    cbn [appendEnvs].
    destruct (append_contents h s vars Hs) as [Hshown Hwf1].
    destruct (append grow h s vars) as [h1 s1] eqn:Happend. cbn [fst snd] in *.
    assert (Hframe : Forall (fun t => contents h1 t = contents h t
                                      ∧ wf h1 t ∧ disjoint s1 t)
                            (rest ++ frame)).
    { apply Forall_forall. intros t Hin.
      rewrite Forall_forall in Hothers, Hdis.
      pose proof (append_frame h s t vars Hs (Hothers t Hin) (Hdis t Hin)) as Hf.
      by rewrite Happend in Hf. }
    destruct (IH h1 (frame ++ [s1])) as (Hloop & Hkept & Hwf2 & Hsep2).
    { rewrite app_assoc. apply Forall_app. split; [| by apply Forall_singleton].
      eapply list.Forall_impl; [exact Hframe |]. by intros t (_ & ? & _). }
    { rewrite app_assoc. apply separated_snoc. split; [done |].
      eapply list.Forall_impl; [exact Hframe |].
      intros t (_ & _ & ?). by apply disjoint_sym. }
    destruct (appendEnvs grow vars h1 rest) as [h2 out] eqn:Hrest.
    cbn [fst snd] in *.
    apply Forall_app in Hkept as [Hkept Hs1]. apply Forall_inv in Hs1.
    apply Forall_app in Hframe as [Hrest1 Hframe1].
    split; [| split; [| split]].
    + constructor; [congruence |].
      clear -Hloop Hrest1. revert out Hloop.
      induction rest as [|t rest IHrest]; intros out Hloop;
        inversion Hloop as [|? t' ? out' Ht Hmore]; subst; [constructor |].
      apply list.Forall_cons in Hrest1 as [(Hsame & _) Hrest1].
      constructor; [congruence | by apply IHrest].
    + apply Forall_forall. intros t Hin.
      rewrite Forall_forall in Hkept, Hframe1.
      rewrite (Hkept t Hin). by destruct (Hframe1 t Hin).
    + rewrite app_assoc in Hwf2. apply Forall_app in Hwf2 as [Hwf2 Hs1wf].
      apply Forall_inv in Hs1wf. by constructor.
    + rewrite app_assoc in Hsep2. by apply separated_snoc_cons in Hsep2.
Qed.
Lemma appendEnvs_length (vars : list apiv1.EnvVar) (slices : list Slice) :
  ∀ h : Heap, length (appendEnvs grow vars h slices).2 = length slices.
Proof.
  induction slices as [|s rest IH]; intros h; [done |].
  cbn [appendEnvs]. destruct (append grow h s vars) as [h1 s1].
  specialize (IH h1). destruct (appendEnvs grow vars h1 rest). cbn in IH |- *.
  by rewrite IH.
Qed.

(** The loop over the structs is the loop over the list of the slices
    it visits, the headers written back where they were read. *)
Lemma appendEnvsAt_eq (vars : list apiv1.EnvVar) (n : nat) :
  ∀ (h : Heap) (fields : list Slice) (addr : nat),
    addr + n ≤ length fields →
    appendEnvsAt grow vars h fields addr n
    = ((appendEnvs grow vars h (take n (drop addr fields))).1,
       take addr fields
       ++ (appendEnvs grow vars h (take n (drop addr fields))).2
       ++ drop (addr + n) fields).
Proof.
  induction n as [|n IH]; intros h fields addr Hin.
  - cbn [appendEnvsAt take appendEnvs fst snd].
    by rewrite Nat.add_0_r, app_nil_l, take_drop.
  - destruct (lookup_lt_is_Some_2 fields addr) as [s Hs]; [lia |].
    cbn [appendEnvsAt]. rewrite Hs, (drop_S _ _ _ Hs).
    cbn [take appendEnvs]. destruct (append grow h s vars) as [h1 s1].
    rewrite IH by (rewrite length_insert; lia).
    rewrite !drop_insert_lt by lia.
    destruct (appendEnvs grow vars h1 (take n (drop (S addr) fields)))
      as [h2 out]. cbn [fst snd]. f_equal.
    rewrite (take_S_r _ _ s1)
      by (apply list_lookup_insert_eq; by eapply lookup_lt_Some).
    rewrite take_insert_ge by lia.
    rewrite <- app_assoc. cbn. by replace (addr + S n) with (S (addr + n)) by lia.
Qed.

Lemma take_drop_app3 {A} (l out : list A) (addr n : nat) :
  addr + n ≤ length l →
  length out = n →
  take n (drop addr (take addr l ++ out ++ drop (addr + n) l)) = out.
Proof.
  intros Hin Hout.
  rewrite drop_app_length' by (rewrite length_take; lia).
  by rewrite take_app_length'.
Qed.

Lemma take_drop_outside {A} (l out : list A) (addr n a k : nat) :
  addr + n ≤ length l →
  length out = n →
  addr + n ≤ a ∨ a + k ≤ addr →
  take k (drop a (take addr l ++ out ++ drop (addr + n) l)) = take k (drop a l).
Proof.
  intros Hin Hout Hoff. apply list_eq. intros i.
  destruct (decide (i < k)) as [Hi | Hi];
    [| by rewrite !lookup_take_ge by lia].
  rewrite !lookup_take_lt, !lookup_drop by lia.
  destruct Hoff as [Hafter | Hbefore].
  - rewrite lookup_app_r by (rewrite length_take; lia).
    rewrite length_take, lookup_app_r by lia.
    rewrite lookup_drop. f_equal. lia.
  - rewrite lookup_app_l by (rewrite length_take; lia).
    by rewrite lookup_take_lt by lia.
Qed.
End Append.

(** ** The decoration on slices *)

Lemma configureUserPodSpecMem_eq (grow : nat → nat → nat) (ext : Checker)
    (L : PodMemory) (spec : apiv1.PodSpec) :
  PodSpec ext = Some spec →
  configureUserPodSpecMem grow ext L
  = Some (setPodSpec ext
            (Some (apiv1.setRestartPolicy
                     (apiv1.setHostname spec (CheckName ext))
                     apiv1.RestartPolicyNever)),
          mkPodMemory
            (appendEnvsAt grow (overwriteEnvVars ext) (env_heap L) (env_fields L)
                          (containers_at L) (containers_len L)).1
            (appendEnvsAt grow (overwriteEnvVars ext) (env_heap L) (env_fields L)
                          (containers_at L) (containers_len L)).2
            (containers_at L) (containers_len L) (inits_at L) (inits_len L),
          None).
Proof.
  intros Hspec. unfold configureUserPodSpecMem. rewrite Hspec.
  by destruct (appendEnvsAt _ _ _ _ _ _).
Qed.


(** With the structs and the environments in separate storage, the
    decoration adds the two variables behind what each container has,
    leaves the environments of the init containers alone, and the
    storage is separate afterwards. *)
Lemma configureUserPodSpecMem_separate (grow : nat → nat → nat) (ext : Checker)
    (L : PodMemory) (spec : apiv1.PodSpec) :
  PodSpec ext = Some spec →
  separateStorage L →
  ∃ ext' L',
    configureUserPodSpecMem grow ext L = Some (ext', L', None)
    ∧ ext' = setPodSpec ext
               (Some (apiv1.setRestartPolicy
                        (apiv1.setHostname spec (CheckName ext))
                        apiv1.RestartPolicyNever))
    ∧ env_inits L' = env_inits L
    ∧ Forall2 (fun s s' => goslice.contents (env_heap L') s'
                           = goslice.contents (env_heap L) s ++ overwriteEnvVars ext)
              (env_containers L) (env_containers L')
    ∧ Forall (fun t => goslice.contents (env_heap L') t
                       = goslice.contents (env_heap L) t)
             (env_inits L)
    ∧ separateStorage L'.
Proof.
  intros Hspec (Hcs & Hinits & Hapart & Hwf & Hsep).
  rewrite (configureUserPodSpecMem_eq grow ext L spec Hspec).
  rewrite (appendEnvsAt_eq grow (overwriteEnvVars ext) _ _ _ _ Hcs).
  fold (env_containers L).
  destruct (appendEnvs_separated grow (overwriteEnvVars ext) (env_containers L)
              (env_heap L) (env_inits L) Hwf Hsep)
    as (Hloop & Hkept & Hwf' & Hsep').
  pose proof (appendEnvs_length grow (overwriteEnvVars ext) (env_containers L)
                (env_heap L)) as Hlen.
  assert (Hn : length (env_containers L) = containers_len L)
    by (unfold env_containers; rewrite length_take, length_drop; lia).
  rewrite Hn in Hlen.
  destruct (appendEnvs grow (overwriteEnvVars ext) (env_heap L) (env_containers L))
    as [h out]. cbn [fst snd] in *.
  eexists _, _. split; [reflexivity |]. split; [reflexivity |].
  assert (Hout : env_containers
                   (mkPodMemory h
                      (take (containers_at L) (env_fields L) ++ out
                       ++ drop (containers_at L + containers_len L) (env_fields L))
                      (containers_at L) (containers_len L) (inits_at L) (inits_len L))
                 = out)
    by (unfold env_containers; cbn; by apply take_drop_app3).
  assert (Hsame : env_inits
                    (mkPodMemory h
                       (take (containers_at L) (env_fields L) ++ out
                        ++ drop (containers_at L + containers_len L) (env_fields L))
                       (containers_at L) (containers_len L) (inits_at L) (inits_len L))
                  = env_inits L)
    by (unfold env_inits; cbn; by apply take_drop_outside).
  split; [exact Hsame |]. rewrite Hout. cbn [env_heap].
  split; [exact Hloop |]. split; [exact Hkept |].
  unfold separateStorage. rewrite Hout, Hsame. cbn.
  rewrite !length_app, length_take, length_drop.
  repeat split; try done; lia.
Qed.

(** For the containers alone, their own environments in separate
    storage are enough. *)
Lemma configureUserPodSpecMem_containers (grow : nat → nat → nat) (ext : Checker)
    (L : PodMemory) (spec : apiv1.PodSpec) :
  PodSpec ext = Some spec →
  separateContainers L →
  ∃ ext' L',
    configureUserPodSpecMem grow ext L = Some (ext', L', None)
    ∧ Forall2 (fun s s' => goslice.contents (env_heap L') s'
                           = goslice.contents (env_heap L) s ++ overwriteEnvVars ext)
              (env_containers L) (env_containers L')
    ∧ separateContainers L'.
Proof.
  intros Hspec (Hcs & Hwf & Hsep).
  rewrite (configureUserPodSpecMem_eq grow ext L spec Hspec).
  rewrite (appendEnvsAt_eq grow (overwriteEnvVars ext) _ _ _ _ Hcs).
  fold (env_containers L).
  rewrite <- (app_nil_r (env_containers L)) in Hwf, Hsep.
  destruct (appendEnvs_separated grow (overwriteEnvVars ext) (env_containers L)
              (env_heap L) [] Hwf Hsep)
    as (Hloop & _ & Hwf' & Hsep').
  rewrite app_nil_r in Hwf', Hsep'.
  pose proof (appendEnvs_length grow (overwriteEnvVars ext) (env_containers L)
                (env_heap L)) as Hlen.
  assert (Hn : length (env_containers L) = containers_len L)
    by (unfold env_containers; rewrite length_take, length_drop; lia).
  rewrite Hn in Hlen.
  destruct (appendEnvs grow (overwriteEnvVars ext) (env_heap L) (env_containers L))
    as [h out]. cbn [fst snd] in *.
  eexists _, _. split; [reflexivity |].
  assert (Hout : env_containers
                   (mkPodMemory h
                      (take (containers_at L) (env_fields L) ++ out
                       ++ drop (containers_at L + containers_len L) (env_fields L))
                      (containers_at L) (containers_len L) (inits_at L) (inits_len L))
                 = out)
    by (unfold env_containers; cbn; by apply take_drop_app3).
  unfold separateContainers. rewrite Hout. cbn.
  rewrite !length_app, length_take, length_drop.
  repeat split; try done; lia.
Qed.

Lemma separateStorage_containers (L : PodMemory) :
  separateStorage L → separateContainers L.
Proof.
  intros (Hcs & _ & _ & Hwf & Hsep). split; [done |].
  apply list.Forall_app in Hwf as [Hwf _]. split; [done |].
  clear -Hsep. induction (env_containers L) as [|s rest IH]; [done |].
  cbn in Hsep |- *. destruct Hsep as [Hs Hrest].
  apply list.Forall_app in Hs as [Hs _]. split; [done | by apply IH].
Qed.

Lemma containerEnv_decorated (L L' : PodMemory) (vars : list apiv1.EnvVar) :
  Forall2 (fun s s' => goslice.contents (env_heap L') s'
                       = goslice.contents (env_heap L) s ++ vars)
          (env_containers L) (env_containers L') →
  ∀ i env, containerEnv L i = Some env → containerEnv L' i = Some (env ++ vars).
Proof.
  intros Hloop i env. unfold containerEnv.
  destruct (env_containers L !! i) as [s|] eqn:Hs; [| done].
  intros [= <-].
  destruct (Forall2_lookup_l _ _ _ _ _ Hloop Hs) as (s' & Hs' & Hshown).
  rewrite Hs'. cbn. by rewrite Hshown.
Qed.








(** Why the two lists must share no struct: with one struct that is both
    the container and the init container, its environment nil, the
    header the decoration stores is the init container's, too. *)
Lemma decorate_one_struct_in_both_lists :
  initEnv Mem.oneStruct 0 = Some []
  ∧ ∃ ext' L',
      configureUserPodSpecMem Mem.grow Mem.withInit Mem.oneStruct
      = Some (ext', L', None)
      ∧ initEnv L' 0
        = Some [ apiv1.mkEnvVar "KUBERHEALTHY_URL"
                                "http://kuberhealthy.kuberhealthy.svc.local";
                 apiv1.mkEnvVar "KUBERHEALTHY_RUN_ID" "run-a" ].
Proof.
  split; [reflexivity |]. eexists _, _. by split.
Qed.

(** ** The decoration on values *)

Lemma zip_with_setEnv_decorated (h h' : goslice.Heap) (vars : list apiv1.EnvVar)
    (slices out : list goslice.Slice) :
  Forall2 (fun s s' => goslice.contents h' s' = goslice.contents h s ++ vars)
          slices out →
  ∀ cs : list apiv1.Container,
    zip_with apiv1.setEnv cs (goslice.contents h' <$> out)
    = (fun c => apiv1.setEnv c (apiv1.Env c ++ vars))
      <$> zip_with apiv1.setEnv cs (goslice.contents h <$> slices).
Proof.
  induction 1 as [|s s' slices out Hhead _ IH]; intros [|c cs]; try done.
  cbn. rewrite Hhead, IH. by destruct c.
Qed.

(** X24. The decoration on values, [configureUserPodSpec], is the
    decoration in memory read back as values whenever the environment
    slices share no storage: reading the environments out of memory and
    decorating the values gives what decorating in memory and reading
    the environments out afterwards gives. The iterations of the check
    are modelled on values; this is the condition under which they are
    the code's. *)
Theorem configureUserPodSpec_refines (grow : nat → nat → nat) (ext : Checker)
    (L : PodMemory) (spec : apiv1.PodSpec) :
  PodSpec ext = Some spec →
  separateStorage L →
  ∃ ext' L',
    configureUserPodSpecMem grow ext L = Some (ext', L', None)
    ∧ configureUserPodSpec (viewChecker L ext) = Some (viewChecker L' ext', None)
    ∧ separateStorage L'.
Proof.
  intros Hspec Hsep.
  destruct (configureUserPodSpecMem_separate grow ext L spec Hspec Hsep)
    as (ext' & L' & Hrun & -> & Hsame & Hloop & Hkept & Hsep').
  eexists. exists L'. split; [exact Hrun |]. split; [| exact Hsep'].
  erewrite configureUserPodSpec_eq
    by (unfold viewChecker; rewrite Hspec; reflexivity).
  unfold viewChecker. rewrite Hspec. cbn.
  do 3 f_equal. unfold decoratedSpec, viewSpec, withRunEnv. cbn.
  assert (goslice.contents (env_heap L') <$> env_inits L
          = goslice.contents (env_heap L) <$> env_inits L) as Hinits.
  { clear -Hkept. induction Hkept as [|t ts Ht _ IH]; [done |].
    cbn. by rewrite Ht, IH. }
  rewrite Hsame, Hinits.
  by rewrite (zip_with_setEnv_decorated _ _ _ _ _ Hloop).
Qed.

Lemma configureUserPodSpec_refines_witness :
  PodSpec Mem.checker = Some Sample.spec
  ∧ separateStorage Mem.plain
  ∧ ∃ ext' L',
      configureUserPodSpecMem Mem.grow Mem.checker Mem.plain = Some (ext', L', None)
      ∧ configureUserPodSpec (viewChecker Mem.plain Mem.checker)
        = Some (viewChecker L' ext', None).
Proof.
  assert (Hsep : separateStorage Mem.plain).
  { split; [| by repeat constructor].
    repeat constructor; cbn; lia. }
  split; [reflexivity |]. split; [exact Hsep |].
  destruct (configureUserPodSpec_refines Mem.grow Mem.checker Mem.plain Sample.spec
              eq_refl Hsep) as (ext' & L' & Hrun & Hview & _).
  exists ext', L'. by split.
Defined.

(** ** Decorating again and again *)

Lemma redecorateMem_step (grow : nat → nat → nat) (ext : Checker) (L : PodMemory)
    (spec : apiv1.PodSpec) (uuid : string) :
  PodSpec ext = Some spec →
  separateContainers L →
  ∃ spec1,
    PodSpec (redecorateMem grow (ext, L) uuid).1 = Some spec1
    ∧ KuberhealthyReportingURL (redecorateMem grow (ext, L) uuid).1
      = KuberhealthyReportingURL ext
    ∧ separateContainers (redecorateMem grow (ext, L) uuid).2
    ∧ ∀ i env,
        containerEnv L i = Some env →
        containerEnv (redecorateMem grow (ext, L) uuid).2 i
        = Some (env ++ runEnv (KuberhealthyReportingURL ext) uuid).
Proof.
  intros Hspec Hsep.
  destruct (configureUserPodSpecMem_containers grow (setCurrentCheckUUID ext uuid) L
              spec Hspec Hsep)
    as (ext' & L' & Hrun & Hloop & Hsep').
  pose proof (configureUserPodSpecMem_eq grow (setCurrentCheckUUID ext uuid) L spec
                Hspec) as Heq.
  rewrite Hrun in Heq. injection Heq as Hext' _.
  unfold redecorateMem. cbn [fst snd]. rewrite Hrun. cbn [fst snd].
  rewrite Hext'.
  eexists. split; [reflexivity |]. split; [reflexivity |].
  split; [exact Hsep' |].
  exact (containerEnv_decorated L L' _ Hloop).
Qed.

(** X22. The decoration appends to the environments the checker keeps,
    so iteration after iteration the environment of each container
    grows. With the environment slices of the containers in separate
    storage at the start, they are in separate storage after every
    decoration, and after the decorations of the runs [uuids] a
    container has the variables it started with, then for each run in
    turn the reporting URL and the id of that run: the ids of the
    earlier runs stay in the environment, before the current one. *)
Theorem redecorateMem_accumulates (grow : nat → nat → nat) (uuids : list string) :
  ∀ (ext : Checker) (L : PodMemory) (spec : apiv1.PodSpec),
    PodSpec ext = Some spec →
    separateContainers L →
    separateContainers (foldl (redecorateMem grow) (ext, L) uuids).2
    ∧ ∀ i env,
        containerEnv L i = Some env →
        containerEnv (foldl (redecorateMem grow) (ext, L) uuids).2 i
        = Some (env ++ concat (runEnv (KuberhealthyReportingURL ext) <$> uuids)).
Proof.
  induction uuids as [|uuid uuids IH]; intros ext L spec Hspec Hsep; cbn [foldl].
  - split; [done |].
    intros i env Henv. cbn. by rewrite app_nil_r.
  - destruct (redecorateMem_step grow ext L spec uuid Hspec Hsep)
      as (spec1 & Hspec1 & Hurl & Hsep1 & Henv1).
    destruct (redecorateMem grow (ext, L) uuid) as [ext1 L1].
    cbn [fst snd] in *.
    destruct (IH ext1 L1 spec1 Hspec1 Hsep1) as (Hsepn & Henvn).
    split; [exact Hsepn |].
    intros i env Henv. rewrite (Henvn i _ (Henv1 i env Henv)), Hurl.
    cbn. by rewrite <- app_assoc.
Qed.

Lemma redecorateMem_accumulates_witness :
  PodSpec Mem.checker = Some Sample.spec
  ∧ separateContainers Mem.plain
  ∧ containerEnv
      (foldl (redecorateMem Mem.grow) (Mem.checker, Mem.plain) ["run-a"; "run-b"]).2 0
    = Some [ apiv1.mkEnvVar "MODE" "fast";
             apiv1.mkEnvVar "KUBERHEALTHY_URL"
                            "http://kuberhealthy.kuberhealthy.svc.local";
             apiv1.mkEnvVar "KUBERHEALTHY_RUN_ID" "run-a";
             apiv1.mkEnvVar "KUBERHEALTHY_URL"
                            "http://kuberhealthy.kuberhealthy.svc.local";
             apiv1.mkEnvVar "KUBERHEALTHY_RUN_ID" "run-b" ].
Proof.
  assert (Hsep : separateContainers Mem.plain).
  { split; [cbn; lia |]. split; [| by repeat constructor].
    repeat constructor; cbn; lia. }
  split; [reflexivity |]. split; [exact Hsep |].
  destruct (redecorateMem_accumulates Mem.grow ["run-a"; "run-b"] Mem.checker
              Mem.plain Sample.spec eq_refl Hsep) as (_ & Henv).
  exact (Henv 0 _ eq_refl).
Defined.

(** ** A watch that stays open *)



